(** * Smart-Attendence-System, IoT module: a shallow embedding in Rocq

    Components modelled:
    - [MQTTClient._topic_matches] and [MQTTClient._on_message] /
      [_handle_control_message] (src/iot_module/mqtt-client.py);
    - [DeviceManager] registry, heartbeat, liveness sweep and broadcast
      (src/iot_module/device-manager.py);
    - [DataProcessor] ingestion queue, processing loop, attendance
      cooldown and the face, attendance and sensor posts to the backend
      (src/iot_module/data_processor.py);
    - [DeviceClient._register_mqtt_handlers] (src/iot_module/device-client.py);
    - [DeviceConfig] get, set and update over a heap of dictionaries
      shared with [DEFAULT_CONFIG] (src/iot_module/config.py).

    Timestamps ([datetime.utcnow()]) are whole microseconds in [Z]; the
    clock is an explicit argument of every operation that reads it. *)

From stdpp Require Import base gmap sets list strings.
From Stdlib Require Import Ascii Sorting.Sorted.

Open Scope string_scope.

(* ===================================================================== *)
(** ** Topic matching (mqtt-client.py) *)
(* ===================================================================== *)

Module Topic.

(** Python's [s.split('/')]: always at least one token, empty tokens kept. *)
Fixpoint split_aux (s : string) (cur : string) : list string :=
  match s with
  | EmptyString => [cur]
  | String c s' =>
      if Ascii.eqb c "/"%char then cur :: split_aux s' ""
      else split_aux s' (cur +:+ String c EmptyString)
  end.

Definition split_slash (s : string) : list string := split_aux s "".

(** The body of the [for i, sub_part in enumerate(sub_parts)] loop. *)
Fixpoint match_loop (i : nat) (sub_parts topic_parts : list string) : bool :=
  match sub_parts with
  | [] => true
  | sub_part :: rest =>
      if String.eqb sub_part "#" then true
      else if String.eqb sub_part "+" then match_loop (S i) rest topic_parts
      else match topic_parts !! i with
           | None => false                              (* i >= len(topic_parts) *)
           | Some tp =>
               if String.eqb sub_part tp then match_loop (S i) rest topic_parts
               else false
           end
  end.

(** [MQTTClient._topic_matches] on the token lists. *)
Definition matches_parts (sub_parts topic_parts : list string) : bool :=
  if negb (Nat.eqb (length sub_parts) (length topic_parts))
     && negb (existsb (String.eqb "#") sub_parts)
  then false
  else match_loop 0 sub_parts topic_parts.

(** [MQTTClient._topic_matches(subscription, topic)]. *)
Definition topic_matches (subscription topic : string) : bool :=
  matches_parts (split_slash subscription) (split_slash topic).

(** ['/'.join(parts)], the inverse of [split_slash]. *)
Fixpoint join_slash (parts : list string) : string :=
  match parts with
  | [] => ""
  | [x] => x
  | x :: rest => x +:+ String "/" (join_slash rest)
  end.

End Topic.

(* ===================================================================== *)
(** ** Device registry (device-manager.py) *)
(* ===================================================================== *)

Module Registry.

Local Open Scope Z_scope.
Local Open Scope list_scope.

(** The two values the code ever stores under ['status']. *)
Inductive Status := Active | Offline.

Definition status_eqb (a b : Status) : bool :=
  match a, b with
  | Active, Active | Offline, Offline => true
  | _, _ => false
  end.

(** The dictionary stored in [self.devices[device_id]]. *)
Record DeviceInfo := {
  device_id : string;
  ip_address : string;
  status : Status;
  last_heartbeat : Z;
  connected_at : Z;
  protocol : string
}.

Definition set_status (s : Status) (d : DeviceInfo) : DeviceInfo :=
  {| device_id := device_id d; ip_address := ip_address d; status := s;
     last_heartbeat := last_heartbeat d; connected_at := connected_at d;
     protocol := protocol d |}.

Definition set_heartbeat (t : Z) (d : DeviceInfo) : DeviceInfo :=
  {| device_id := device_id d; ip_address := ip_address d; status := status d;
     last_heartbeat := t; connected_at := connected_at d;
     protocol := protocol d |}.

(** [self.devices] and [self.active_devices]; both are only touched
    under [self.lock], so each method is one atomic step. *)
Record DeviceManager := {
  devices : gmap string DeviceInfo;
  active_devices : gset string
}.

Definition usec_per_sec : Z := 1000000.
Definition heartbeat_timeout : Z := 300.   (* seconds *)

(** [(current_time - last_heartbeat).total_seconds() > self.heartbeat_timeout] *)
Definition missed (current_time last : Z) : bool :=
  bool_decide (current_time - last > heartbeat_timeout * usec_per_sec).

Definition init : DeviceManager := {| devices := ∅; active_devices := ∅ |}.

(** [register_device(device_id, ip_address)] at clock [now]. *)
Definition register_device (id ip : string) (now : Z) (m : DeviceManager)
  : bool * DeviceManager :=
  let info := {| device_id := id; ip_address := ip; status := Active;
                 last_heartbeat := now; connected_at := now;
                 protocol := "mqtt" |} in
  (true, {| devices := <[id := info]> (devices m);
            active_devices := {[id]} ∪ active_devices m |}).

(** [unregister_device(device_id)]. *)
Definition unregister_device (id : string) (m : DeviceManager)
  : bool * DeviceManager :=
  match devices m !! id with
  | Some _ => (true, {| devices := delete id (devices m);
                        active_devices := active_devices m ∖ {[id]} |})
  | None => (false, m)
  end.

(** [get_device_status(device_id)]: [None] stands for ['unknown']. *)
Definition get_device_status (id : string) (m : DeviceManager) : option Status :=
  status <$> devices m !! id.

(** The durable store ([Device] documents): status and [last_online]. *)
Record DbDevice := { db_status : Status; last_online : Z }.

(** Outcome of the store call inside the [try]: reachable or raising. *)
Inductive DbOutcome := DbUp | DbRaises.

(** The [try] block of the heartbeat: [Device.objects(...).first()],
    then [device.save()] if a document was found; an exception leaves the
    store as it was and is only logged. *)
Definition db_mark_active (id : string) (now : Z) (o : DbOutcome)
    (db : gmap string DbDevice) : gmap string DbDevice :=
  match o with
  | DbRaises => db
  | DbUp =>
      match db !! id with
      | Some d => <[id := {| db_status := Active; last_online := now |}]> db
      | None => db
      end
  end.

(** [update_device_heartbeat(device_id)] at clock [now]. *)
Definition update_device_heartbeat (id : string) (now : Z) (o : DbOutcome)
    (m : DeviceManager) (db : gmap string DbDevice)
  : bool * DeviceManager * gmap string DbDevice :=
  match devices m !! id with
  | Some info =>
      let info' := set_status Active (set_heartbeat now info) in
      (true, {| devices := <[id := info']> (devices m);
                active_devices := {[id]} ∪ active_devices m |},
       db_mark_active id now o db)
  | None => (false, m, db)
  end.

(** The test of the sweep loop:
    [time_diff > self.heartbeat_timeout and device_info['status'] == 'active']. *)
Definition stale (current_time : Z) (info : DeviceInfo) : bool :=
  missed current_time (last_heartbeat info) && status_eqb (status info) Active.

(** One iteration of [for device_id, device_info in self.devices.items()]
    in [_monitor_heartbeats]: the state is the registry and
    [devices_to_mark_offline]. *)
Definition sweep_entry (current_time : Z)
    (acc : DeviceManager * list string) (e : string * DeviceInfo)
  : DeviceManager * list string :=
  let '(m, offl) := acc in
  let '(id, info) := e in
  if stale current_time info
  then ({| devices := <[id := set_status Offline info]> (devices m);
           active_devices := active_devices m ∖ {[id]} |}, offl ++ [id])
  else (m, offl).

(** The locked part of one pass of [_monitor_heartbeats]. *)
Definition sweep (current_time : Z) (m : DeviceManager)
  : DeviceManager * list string :=
  foldl (sweep_entry current_time) (m, []) (map_to_list (devices m)).

(** The store update after the lock: each marked device set to offline,
    an exception on one device is logged and the loop continues. *)
Definition db_mark_offline (offl : list string) (os : string -> DbOutcome)
    (db : gmap string DbDevice) : gmap string DbDevice :=
  foldl (fun db id =>
           match os id with
           | DbRaises => db
           | DbUp => match db !! id with
                     | Some d => <[id := {| db_status := Offline;
                                            last_online := last_online d |}]> db
                     | None => db
                     end
           end) db offl.

(** Result of [requests.post(url, ...)]: a reply status code, or an
    exception. *)
Inductive PostResult := Reply (code : Z) | Raised.

(** [broadcast_message(message)]: [post] is the HTTP transport, by
    device address. The result also lists the addresses posted to, in
    order. *)
Definition broadcast_message (post : string -> PostResult) (m : DeviceManager)
  : (nat * nat) * list string :=
  let active := elements (active_devices m) in
  foldl (fun acc id =>
           let '((sent, failed), tried) := acc in
           match devices m !! id with          (* self.get_device_info(device_id) *)
           | None => ((sent, failed), tried)   (* continue *)
           | Some info =>
               match post (ip_address info) with
               | Reply code =>
                   if Z.eqb code 200 then ((S sent, failed), tried ++ [ip_address info])
                   else ((sent, S failed), tried ++ [ip_address info])
               | Raised => ((sent, S failed), tried ++ [ip_address info])
               end
           end) ((0%nat, 0%nat), []) active.

(** A sequence of [update_device_heartbeat(device_id)] calls, each at its
    own clock reading and store outcome: for each call, the value it
    returns and the device record right after it. *)
Fixpoint heartbeat_trace (id : string) (calls : list (Z * DbOutcome))
    (m : DeviceManager) (db : gmap string DbDevice) : list (bool * option DeviceInfo) :=
  match calls with
  | [] => []
  | (now, o) :: rest =>
      let '(r, m', db') := update_device_heartbeat id now o m db in
      (r, devices m' !! id) :: heartbeat_trace id rest m' db'
  end.

(** Whether the broadcast counts a device as sent ([status_code == 200]). *)
Definition delivered (post : string -> PostResult) (info : DeviceInfo) : bool :=
  match post (ip_address info) with
  | Reply code => Z.eqb code 200
  | Raised => false
  end.

(** The records of the devices in [active_devices], in the set's order. *)
Definition active_infos (m : DeviceManager) : list DeviceInfo :=
  omap (fun id => devices m !! id) (elements (active_devices m)).

(** [get_active_devices()]: [list(self.active_devices)]. *)
Definition get_active_devices (m : DeviceManager) : list string :=
  elements (active_devices m).

(** [get_device_info(device_id)]: the stored record, or [None]. *)
Definition get_device_info (id : string) (m : DeviceManager) : option DeviceInfo :=
  devices m !! id.

(** The operations of the registry that change its state. *)
Inductive Op :=
  | OpRegister (id ip : string) (now : Z)
  | OpHeartbeat (id : string) (now : Z) (o : DbOutcome)
  | OpUnregister (id : string)
  | OpSweep (now : Z).

Definition step (db : gmap string DbDevice) (m : DeviceManager) (op : Op)
  : DeviceManager :=
  match op with
  | OpRegister id ip now => snd (register_device id ip now m)
  | OpHeartbeat id now o => snd (fst (update_device_heartbeat id now o m db))
  | OpUnregister id => snd (unregister_device id m)
  | OpSweep now => fst (sweep now m)
  end.

Definition run (db : gmap string DbDevice) (ops : list Op) : DeviceManager :=
  foldl (step db) init ops.

(** The consistency of the two views. *)
Definition consistent (m : DeviceManager) : Prop :=
  forall id, id ∈ active_devices m <->
             exists info, devices m !! id = Some info /\ status info = Active.

End Registry.

(* ===================================================================== *)
(** ** Data processor (data_processor.py) *)
(* ===================================================================== *)

Module Processor.

Local Open Scope Z_scope.
Local Open Scope list_scope.

(** The ['user_id'], ['verification_method'] and ['status'] keys of an
    attendance payload. [data.get('user_id')] gives [None] when the key is
    absent or null; for the other two keys the outer [None] is an absent
    key (the [.get] default applies) and [Some None] a key present with a
    null value (kept as null). *)
Record AttData := {
  user_id : option string;
  verification_method : option (option string);
  att_status : option (option string)
}.

(** The payloads handed to [process_image] / [process_data]. *)
Inductive Payload :=
  | PImage (encoded : string)
  | PAttendance (a : AttData)
  | PSensor (reading : string).

(** The keys of the metadata dictionary the processor reads: ['location']
    and ['sensor_type'] (outer [None] absent, [Some None] null), and
    whether [metadata.get('report_to_backend', False)] is truthy. *)
Record Metadata := {
  location : option (option string);
  report_to_backend : bool;
  sensor_type : option (option string)
}.

Definition empty_metadata : Metadata :=
  {| location := None; report_to_backend := false; sensor_type := None |}.

(** A queue entry: [{'type', 'data', 'metadata', 'timestamp'}]. *)
Record Item := {
  item_type : string;
  data : Payload;
  metadata : Metadata;
  timestamp : Z
}.

Record DataProcessor := {
  dp_device_id : string;
  processing_queue : list Item;
  max_queue_size : nat;
  last_attendance_time : gmap string Z;
  min_attendance_interval : Z      (* seconds *)
}.

Definition new_processor (device_id : string) : DataProcessor :=
  {| dp_device_id := device_id; processing_queue := [];
     max_queue_size := 100; last_attendance_time := ∅;
     min_attendance_interval := 60 |}.

Definition set_queue (q : list Item) (dp : DataProcessor) : DataProcessor :=
  {| dp_device_id := dp_device_id dp; processing_queue := q;
     max_queue_size := max_queue_size dp;
     last_attendance_time := last_attendance_time dp;
     min_attendance_interval := min_attendance_interval dp |}.

Definition set_last_attendance (l : gmap string Z) (dp : DataProcessor)
  : DataProcessor :=
  {| dp_device_id := dp_device_id dp; processing_queue := processing_queue dp;
     max_queue_size := max_queue_size dp; last_attendance_time := l;
     min_attendance_interval := min_attendance_interval dp |}.

(** [process_image(image_data, metadata)] at clock [now]. It returns at
    once: it never waits for room in the queue. *)
Definition process_image (image_data : string) (md : option Metadata) (now : Z)
    (dp : DataProcessor) : bool * DataProcessor :=
  if Nat.leb (max_queue_size dp) (length (processing_queue dp)) then (false, dp)
  else (true, set_queue (processing_queue dp ++
                         [{| item_type := "image"; data := PImage image_data;
                             metadata := default empty_metadata md;
                             timestamp := now |}]) dp).

(** [process_data(data, data_type, metadata)] at clock [now]. *)
Definition process_data (d : Payload) (data_type : string) (md : option Metadata)
    (now : Z) (dp : DataProcessor) : bool * DataProcessor :=
  if Nat.leb (max_queue_size dp) (length (processing_queue dp)) then (false, dp)
  else (true, set_queue (processing_queue dp ++
                         [{| item_type := data_type; data := d;
                             metadata := default empty_metadata md;
                             timestamp := now |}]) dp).

(** The locked part of one [_processing_loop] iteration:
    [self.processing_queue.pop(0)] when the queue is non-empty. *)
Definition take_item (dp : DataProcessor) : option Item * DataProcessor :=
  match processing_queue dp with
  | [] => (None, dp)
  | it :: rest => (Some it, set_queue rest dp)
  end.

(** The dictionary posted by [_send_attendance_data]; [None] in a field
    stands for a JSON null. *)
Record AttendanceReport := {
  r_user_id : string;
  r_device_id : string;
  r_timestamp : Z;
  r_verification_method : option string;
  r_location : option string;
  r_status : option string
}.

(** [if not user_id]: [None] and the empty string are falsy. *)
Definition falsy (u : option string) : bool :=
  match u with None => true | Some s => String.eqb s "" end.

(** [_process_attendance_data(data, metadata, timestamp)]; the report is
    what is handed to [_send_attendance_data], if anything. *)
Definition process_attendance_data (a : AttData) (md : Metadata) (ts : Z)
    (dp : DataProcessor) : DataProcessor * option AttendanceReport :=
  match user_id a with
  | None => (dp, None)
  | Some uid =>
      if String.eqb uid "" then (dp, None)
      else
        let suppressed :=
          match last_attendance_time dp !! uid with
          | Some last_time =>
              (* time_diff < self.min_attendance_interval *)
              bool_decide (ts - last_time < min_attendance_interval dp * 1000000)
          | None => false
          end in
        if suppressed then (dp, None)
        else (set_last_attendance (<[uid := ts]> (last_attendance_time dp)) dp,
              Some {| r_user_id := uid; r_device_id := dp_device_id dp;
                      r_timestamp := ts;
                      r_verification_method :=
                        default (Some "manual") (verification_method a);
                      r_location := default (Some "") (location md);
                      r_status := default (Some "present") (att_status a) |})
  end.

(** Queue operations seen by the producer and the consumer. *)
Inductive QOp :=
  | QImage (image_data : string) (md : option Metadata) (now : Z)
  | QData (d : Payload) (data_type : string) (md : option Metadata) (now : Z)
  | QTake.

Definition qstep (dp : DataProcessor) (op : QOp) : DataProcessor :=
  match op with
  | QImage img md now => snd (process_image img md now dp)
  | QData d ty md now => snd (process_data d ty md now dp)
  | QTake => snd (take_item dp)
  end.

(** [self.face_detector] as [_process_image_data] uses it on a string
    payload: [None] when base64 decoding, detection or JPEG encoding
    raises (the exception is logged), otherwise the faces
    [detectMultiScale] returns, in order, each [None] when its region is
    empty ([continue]) and otherwise [Some] of the base64 JPEG of the
    region. The detector is loaded once by [__init__], when the cascade
    file exists; [None] below stands for [self.face_detector is None]. *)
Definition FaceDetector := string -> option (list (option string)).

(** The dictionary built by [_send_face_for_identification] (its
    ['timestamp'], [datetime.utcnow()] at that moment, is left out). *)
Record FaceRequest := {
  f_face_data : string;
  f_device_id : string;
  f_verification_method : string;
  f_location : option string
}.

(** The dictionary built by [_process_sensor_data]. *)
Record SensorReport := {
  s_device_id : string;
  s_timestamp : Z;
  s_sensor_type : option string;
  s_data : Payload
}.

(** What one processed item sends to the backend, each from its own
    thread: [_send_attendance_data] and [_send_attendance_request] both
    post to [/api/attendance/mark], [_send_sensor_data] to
    [/api/sensors/data]. *)
Inductive Post :=
  | AttendancePost (r : AttendanceReport)
  | FacePost (f : FaceRequest)
  | SensorPost (s : SensorReport).

Definition post_path (p : Post) : string :=
  match p with
  | AttendancePost _ | FacePost _ => "/api/attendance/mark"
  | SensorPost _ => "/api/sensors/data"
  end.

Definition post_device_id (p : Post) : string :=
  match p with
  | AttendancePost r => r_device_id r
  | FacePost f => f_device_id f
  | SensorPost s => s_device_id s
  end.

(** The attendance reports among the posts, in order. *)
Definition attendance_reports (ps : list Post) : list AttendanceReport :=
  omap (fun p => match p with AttendancePost r => Some r | _ => None end) ps.

(** [for (x, y, w, h) in faces]: skip empty regions, send the first
    other one and [break]. *)
Fixpoint first_face (faces : list (option string)) : option string :=
  match faces with
  | [] => None
  | None :: rest => first_face rest
  | Some f :: _ => Some f
  end.

(** [_process_image_data(image_data, metadata, timestamp)]: the request
    handed to [_send_face_for_identification], if any. *)
Definition process_image_data (det : option FaceDetector) (image_data : Payload)
    (md : Metadata) (dp : DataProcessor) : option Post :=
  match det with
  | None => None                                  (* no face detector *)
  | Some detect =>
      match image_data with
      | PImage s | PSensor s =>                    (* isinstance(image_data, str) *)
          match detect s with
          | None => None
          | Some faces =>
              match first_face faces with
              | None => None                      (* no face, or only empty regions *)
              | Some face =>
                  Some (FacePost {| f_face_data := face;
                                    f_device_id := dp_device_id dp;
                                    f_verification_method := "face_recognition";
                                    f_location := default (Some "") (location md) |})
              end
          end
      | PAttendance _ => None                      (* "Unsupported image format" *)
      end
  end.

(** [_process_sensor_data(data, metadata, timestamp)]: the dictionary
    handed to [_send_sensor_data], if any. *)
Definition process_sensor_data (d : Payload) (md : Metadata) (ts : Z)
    (dp : DataProcessor) : option Post :=
  if report_to_backend md
  then Some (SensorPost {| s_device_id := dp_device_id dp; s_timestamp := ts;
                           s_sensor_type := default (Some "unknown") (sensor_type md);
                           s_data := d |})
  else None.

(** [_process_item(item)]: dispatch on [item['type']]; [data.get] on a
    payload that is not a dictionary raises, and the exception is
    logged. *)
Definition process_item (det : option FaceDetector) (it : Item) (dp : DataProcessor)
  : DataProcessor * option Post :=
  if String.eqb (item_type it) "image" then
    (dp, process_image_data det (data it) (metadata it) dp)
  else if String.eqb (item_type it) "attendance" then
    match data it with
    | PAttendance a =>
        let '(dp1, r) := process_attendance_data a (metadata it) (timestamp it) dp in
        (dp1, option_map AttendancePost r)
    | _ => (dp, None)
    end
  else if String.eqb (item_type it) "sensor" then
    (dp, process_sensor_data (data it) (metadata it) (timestamp it) dp)
  else (dp, None).                                (* "Unknown item type" *)

(** The items handed to [_process_item] one after the other, with the
    posts they send, in order. *)
Fixpoint run_items (det : option FaceDetector) (items : list Item) (dp : DataProcessor)
  : DataProcessor * list Post :=
  match items with
  | [] => (dp, [])
  | it :: rest =>
      let '(dp1, p) := process_item det it dp in
      let '(dp2, ps) := run_items det rest dp1 in
      (dp2, option_list p ++ ps)
  end.

(** [fuel] iterations of [_processing_loop] with no producer running: pop
    the head of the queue and process it; on an empty queue the loop only
    sleeps, so nothing changes any more. *)
Fixpoint drain (det : option FaceDetector) (fuel : nat) (dp : DataProcessor)
  : DataProcessor * list Post :=
  match fuel with
  | O => (dp, [])
  | S n =>
      match take_item dp with
      | (None, dp1) => (dp1, [])
      | (Some it, dp1) =>
          let '(dp2, p) := process_item det it dp1 in
          let '(dp3, ps) := drain det n dp2 in
          (dp3, option_list p ++ ps)
      end
  end.

(** A producer calling [process_data] once per entry, collecting the
    returned flags. *)
Fixpoint enqueue_all (xs : list (Payload * string * option Metadata * Z))
    (dp : DataProcessor) : list bool * DataProcessor :=
  match xs with
  | [] => ([], dp)
  | (d, ty, md, now) :: rest =>
      let '(ok, dp1) := process_data d ty md now dp in
      let '(oks, dp2) := enqueue_all rest dp1 in
      (ok :: oks, dp2)
  end.

Definition mk_item (x : Payload * string * option Metadata * Z) : Item :=
  let '(d, ty, md, now) := x in
  {| item_type := ty; data := d; metadata := default empty_metadata md;
     timestamp := now |}.

End Processor.

(* ===================================================================== *)
(** ** Control messages (mqtt-client.py) *)
(* ===================================================================== *)

Module Control.

Local Open Scope list_scope.

(** A message payload as [_on_message] and the control handler see it:
    bytes on which [msg.payload.decode('utf-8')] raises, or else what
    [json.loads(payload)] yields, as far as the handler looks at it: a
    parse error, a JSON value without [.get], or an object whose
    ['command'] key is read. *)
Inductive Decoded :=
  | NotUtf8
  | NotJson
  | NotObject
  | Object (command : option string).

(** The acknowledgement dictionaries published by the handler. *)
Record Ack := { ack_command : string; ack_status : option string }.

(** Observable effects of handling one inbound message. *)
Inductive Event :=
  | Published (topic : string) (msg : Ack)
  | CallbackRun (registered_topic topic : string)
  | RestartScheduled
  | ConfigApplied.

Record MQTTClient := {
  client_device_id : string;
  is_connected : bool;
  (** [self.message_callbacks], in insertion order. *)
  message_callbacks : list string
}.

Definition control_topic (c : MQTTClient) : string :=
  "devices/" +:+ client_device_id c +:+ "/control".

Definition ack_topic (c : MQTTClient) : string :=
  "devices/" +:+ client_device_id c +:+ "/control/ack".

(** [self.publish(topic, message)]: nothing leaves when disconnected. *)
Definition publish (c : MQTTClient) (topic : string) (msg : Ack) : list Event :=
  if is_connected c then [Published topic msg] else [].

(** [_handle_control_message(payload)]. *)
Definition handle_control_message (c : MQTTClient) (d : Decoded) : list Event :=
  match d with
  | NotUtf8 | NotJson | NotObject => []       (* exception, logged *)
  | Object None => []                         (* no command *)
  | Object (Some command) =>
      if String.eqb command "" then []
      else if String.eqb command "restart" then
        publish c (ack_topic c) {| ack_command := command; ack_status := Some "received" |}
        ++ [RestartScheduled]
      else if String.eqb command "config" then
        ConfigApplied ::
        publish c (ack_topic c) {| ack_command := command; ack_status := Some "applied" |}
      else if String.eqb command "ping" then
        publish c (ack_topic c) {| ack_command := "pong"; ack_status := None |}
      else []                                 (* unknown command, logged *)
  end.

(** [_on_message]: the payload is decoded first, then the control topic,
    then an exact callback, then the first wildcard match in the
    dictionary's order. *)
Definition on_message (c : MQTTClient) (topic : string) (d : Decoded) : list Event :=
  match d with
  | NotUtf8 => []                             (* UnicodeDecodeError, logged *)
  | _ =>
      if String.eqb topic (control_topic c) then handle_control_message c d
      else if existsb (String.eqb topic) (message_callbacks c) then [CallbackRun topic topic]
      else match List.find (fun reg => Topic.topic_matches reg topic) (message_callbacks c) with
           | Some reg => [CallbackRun reg topic]
           | None => []
           end
  end.



Definition set_callbacks (cbs : list string) (c : MQTTClient) : MQTTClient :=
  {| client_device_id := client_device_id c; is_connected := is_connected c;
     message_callbacks := cbs |}.

(** [subscribe(topic, callback)]; [broker_ok] is whether
    [self.client.subscribe] returned [MQTT_ERR_SUCCESS] without raising.
    [self.message_callbacks[topic] = callback] keeps the position of a
    topic already registered and appends a new one. *)
Definition subscribe (c : MQTTClient) (topic : string) (broker_ok : bool)
  : bool * MQTTClient :=
  if negb (is_connected c) then (false, c)
  else if negb broker_ok then (false, c)
  else (true, set_callbacks
                (if existsb (String.eqb topic) (message_callbacks c)
                 then message_callbacks c
                 else message_callbacks c ++ [topic]) c).

(** [unsubscribe(topic)]: [del self.message_callbacks[topic]] if present. *)
Definition unsubscribe (c : MQTTClient) (topic : string) (broker_ok : bool)
  : bool * MQTTClient :=
  if negb (is_connected c) then (false, c)
  else if negb broker_ok then (false, c)
  else (true, set_callbacks
                (List.filter (fun t => negb (String.eqb t topic)) (message_callbacks c)) c).

(** [DeviceClient._register_mqtt_handlers] (device-client.py): the
    device's control topic, then ["devices/broadcast"]. *)
Definition register_mqtt_handlers (c : MQTTClient) (ok1 ok2 : bool) : MQTTClient :=
  (subscribe (subscribe c ("devices/" +:+ client_device_id c +:+ "/control") ok1).2
     "devices/broadcast" ok2).2.

Definition is_callback_run (e : Event) : bool :=
  match e with CallbackRun _ _ => true | _ => false end.

Definition is_published (e : Event) : bool :=
  match e with Published _ _ => true | _ => false end.

End Control.

(* ===================================================================== *)
(** ** Device configuration (config.py) *)
(* ===================================================================== *)

Module Config.

Local Open Scope Z_scope.
Local Open Scope list_scope.

(** Dictionaries are heap objects, referred to by location: [DEFAULT_CONFIG.copy()]
    copies only the top-level dictionary, so nested ones are shared. *)
Definition loc := positive.

(** The Python values a configuration holds (floats as [mantissa * 2^exponent]). *)
#[warnings="-register-all"]
Inductive Val :=
  | VNone
  | VBool (b : bool)
  | VInt (n : Z)
  | VFloat (mantissa exponent : Z)
  | VStr (s : string)
  | VList (items : list Val)
  | VDict (l : loc).

Abbreviation Dict := (gmap string Val).
Abbreviation Heap := (gmap loc Dict).

(** Python's [key.split('.')]. *)
Fixpoint split_aux (s : string) (cur : string) : list string :=
  match s with
  | EmptyString => [cur]
  | String c s' =>
      if Ascii.eqb c "."%char then cur :: split_aux s' ""
      else split_aux s' (cur +:+ String c EmptyString)
  end.

Definition split_dot (s : string) : list string := split_aux s "".

(** The loop of [get]: [value = value.get(part)]; a [None] result returns
    the default, and [.get] on a value that is not a dictionary raises,
    which also returns the default. *)
Fixpoint get_path (h : Heap) (value : Val) (parts : list string) : option Val :=
  match parts with
  | [] => Some value
  | part :: rest =>
      match value with
      | VDict l =>
          match h !! l with
          | Some d =>
              match d !! part with
              | None | Some VNone => None
              | Some v => get_path h v rest
              end
          | None => None
          end
      | _ => None
      end
  end.

(** [DeviceConfig.get(key, default)] on the configuration at [root]. *)
Definition get (h : Heap) (root : loc) (key : string) (default : Val) : Val :=
  match get_path h (VDict root) (split_dot key) with
  | Some v => v
  | None => default
  end.

(** The loop of [set] over [parts[:-1]]: a missing part gets a new empty
    dictionary; a part holding something else than a dictionary makes the
    next step raise ([in] or item assignment on a non-dictionary), before
    anything more is written. Returns the heap as left and, if no exception
    was raised, the dictionary reached. *)
Fixpoint walk (h : Heap) (cur : loc) (parts : list string) : Heap * option loc :=
  match parts with
  | [] => (h, Some cur)
  | part :: rest =>
      match h !! cur with
      | None => (h, None)
      | Some d =>
          match d !! part with
          | None =>
              let n := fresh (dom h) in
              walk (<[n := ∅]> (<[cur := <[part := VDict n]> d]> h)) n rest
          | Some (VDict l) => walk h l rest
          | Some _ => (h, None)
          end
      end
  end.

(** [DeviceConfig.set(key, value)]; the result of [save_config] is not
    looked at, so the file is left out. *)
Definition set (h : Heap) (root : loc) (key : string) (value : Val) : bool * Heap :=
  let parts := split_dot key in
  match walk h root (removelast parts) with
  | (h1, Some cur) =>
      match h1 !! cur with
      | Some d => (true, <[cur := <[List.last parts "" := value]> d]> h1)
      | None => (false, h1)
      end
  | (h1, None) => (false, h1)
  end.

Definition dict_of (entries : list (string * Val)) : Dict := list_to_map entries.

(** The module-level [DEFAULT_CONFIG], its dictionaries at locations 1 to 8. *)
Definition default_loc : loc := 1%positive.

Definition default_heap : Heap :=
  list_to_map
    [(1%positive, dict_of [("camera", VDict 2%positive); ("mqtt", VDict 4%positive); ("network", VDict 5%positive);
                           ("security", VDict 6%positive); ("device", VDict 7%positive);
                           ("processing", VDict 8%positive)]);
     (2%positive, dict_of [("enabled", VBool true); ("resolution", VDict 3%positive);
                           ("fps", VInt 15); ("quality", VInt 90);
                           ("face_detection", VBool true);
                           ("detection_interval", VFloat 1 0)]);
     (3%positive, dict_of [("width", VInt 640); ("height", VInt 480)]);
     (4%positive, dict_of [("enabled", VBool true); ("broker", VStr "localhost");
                           ("port", VInt 1883); ("use_tls", VBool false);
                           ("username", VStr ""); ("password", VStr "");
                           ("client_id_prefix", VStr "smart_attendance_")]);
     (5%positive, dict_of [("reconnect_attempts", VInt 5); ("reconnect_delay", VInt 5);
                           ("timeout", VInt 10);
                           ("backend_url", VStr "http://localhost:5000")]);
     (6%positive, dict_of [("encryption_enabled", VBool true); ("secure_boot", VBool true);
                           ("api_key_required", VBool true)]);
     (7%positive, dict_of [("location", VStr ""); ("name", VStr "");
                           ("log_level", VStr "INFO"); ("heartbeat_interval", VInt 60)]);
     (8%positive, dict_of [("local_face_detection", VBool true);
                           ("local_face_recognition", VBool false);
                           ("queue_size", VInt 100); ("min_attendance_interval", VInt 60)])].

Definition default_sections : list string :=
  ["camera"; "mqtt"; "network"; "security"; "device"; "processing"].

(** [DeviceConfig(device_id)] for a device without a configuration file:
    [self.config = DEFAULT_CONFIG.copy()], then [load_config] only saves. *)
Definition new_config (h : Heap) : Heap * loc :=
  let n := fresh (dom h) in
  (<[n := default ∅ (h !! default_loc)]> h, n).

(** A heap without dangling references in which every reference from a
    dictionary to a nested one goes down in [rank]: no dictionary contains
    itself, directly or not. *)
Definition well_formed (h : Heap) (rank : loc -> Z) : bool :=
  forallb (fun '(l, d) =>
    forallb (fun '(_, v) =>
      match v with
      | VDict l' =>
          match h !! l' with
          | Some _ => Z.ltb (rank l') (rank l)
          | None => false
          end
      | _ => true
      end) (map_to_list d)) (map_to_list h).

(** The dictionary reached from [l] by following [parts] through nested
    dictionaries only. *)
Fixpoint nav (h : Heap) (l : loc) (parts : list string) : option loc :=
  match parts with
  | [] => Some l
  | p :: rest =>
      match h !! l with
      | Some d => match d !! p with Some (VDict l') => nav h l' rest | _ => None end
      | None => None
      end
  end.

(** [well_formed] as a proposition. *)
Definition WF (h : Heap) (rank : loc -> Z) : Prop :=
  forall l d k l', h !! l = Some d -> d !! k = Some (VDict l') ->
    is_Some (h !! l') /\ rank l' < rank l.

(** What [json.load] gives back (and what [update] is passed): JSON values,
    an object as its [items()] in order. *)
#[warnings="-register-all"]
Inductive JSON :=
  | JNull
  | JBool (b : bool)
  | JInt (n : Z)
  | JFloat (mantissa exponent : Z)
  | JStr (s : string)
  | JArr (items : list JSON)
  | JObj (items : list (string * JSON)).

(** The value a JSON value becomes once stored: every object is a new
    dictionary of the heap (a later duplicate key overwrites). *)
Fixpoint alloc (h : Heap) (j : JSON) : Heap * Val :=
  match j with
  | JNull => (h, VNone)
  | JBool b => (h, VBool b)
  | JInt n => (h, VInt n)
  | JFloat m e => (h, VFloat m e)
  | JStr s => (h, VStr s)
  | JArr js =>
      let fix alloc_list (h : Heap) (js : list JSON) : Heap * list Val :=
        match js with
        | [] => (h, [])
        | j :: js' =>
            let '(h1, v) := alloc h j in
            let '(h2, vs) := alloc_list h1 js' in
            (h2, v :: vs)
        end in
      let '(h', vs) := alloc_list h js in (h', VList vs)
  | JObj kvs =>
      let n := fresh (dom h) in
      let fix alloc_items (h : Heap) (kvs : list (string * JSON)) : Heap :=
        match kvs with
        | [] => h
        | (k, j) :: kvs' =>
            let '(h1, v) := alloc h j in
            alloc_items (<[n := <[k := v]> (default ∅ (h1 !! n))]> h1) kvs'
        end in
      (alloc_items (<[n := ∅]> h) kvs, VDict n)
  end.

(** One round of the loop of [_update_dict(target, source)]: an object
    whose key already holds a dictionary is merged into that dictionary
    (the recursive call, over the object's items in order), anything else
    is stored at the key. [target] is always a dictionary of the heap; were
    it missing, nothing would be stored. *)
Fixpoint update_item (h : Heap) (target : loc) (key : string) (value : JSON) : Heap :=
  match value, h !! target ≫= lookup key with
  | JObj items, Some (VDict l) =>
      (fix update_items (h : Heap) (items : list (string * JSON)) : Heap :=
         match items with
         | [] => h
         | (k, v) :: rest => update_items (update_item h l k v) rest
         end) h items
  | _, _ =>
      let '(h1, v) := alloc h value in
      match h1 !! target with
      | Some d => <[target := <[key := v]> d]> h1
      | None => h1
      end
  end.

(** [_update_dict(target, source)]: [for key, value in source.items()]. *)
Definition update_dict (h : Heap) (target : loc) (source : list (string * JSON)) : Heap :=
  fold_left (fun h '(key, value) => update_item h target key value) source h.

(** [DeviceConfig.update(config_dict)]; the result of [save_config] is not
    looked at. *)
Definition update (h : Heap) (root : loc) (config_dict : list (string * JSON)) : bool * Heap :=
  (true, update_dict h root config_dict).

(** [h1] extends [h]: the dictionaries of [h] are unchanged in [h1], and a
    dictionary new in [h1] refers only to dictionaries new in [h1]. *)
Definition extends (h h1 : Heap) : Prop :=
  (forall l, l ∈ dom h -> h1 !! l = h !! l) /\
  (forall l d k l', l ∉ dom h -> h1 !! l = Some d -> d !! k = Some (VDict l') -> l' ∉ dom h).

(** No dictionary of [h] refers to a location satisfying [Q]. *)
Definition no_ref (h : Heap) (Q : loc -> Prop) : Prop :=
  forall l d k l', h !! l = Some d -> d !! k = Some (VDict l') -> ~ Q l'.

End Config.


(* ===================================================================== *)
(** * Properties *)
(* ===================================================================== *)

(** ** Topic matching *)

Section TopicFacts.
Import Topic.
Local Open Scope list_scope.

Lemma match_loop_app_hash (pre rest t : list string) (i : nat) :
  ~ In "#" pre ->
  match_loop i (pre ++ "#" :: rest) t = match_loop i (pre ++ ["#"]) t.
Proof.
  revert i; induction pre as [|x pre IH]; intros i Hn; simpl; [reflexivity|].
  assert (Hx : x <> "#") by (intros ->; apply Hn; left; reflexivity).
  assert (Hp : ~ In "#" pre) by (intros H; apply Hn; right; exact H).
  destruct (String.eqb_spec x "#"); [contradiction|].
  destruct (String.eqb x "+"); [apply IH; exact Hp|].
  destruct (t !! i); [|reflexivity].
  destruct (String.eqb x s); [apply IH; exact Hp|reflexivity].
Qed.

Lemma existsb_hash_app (pre rest : list string) :
  existsb (String.eqb "#") (pre ++ "#" :: rest) = true.
Proof.
  apply existsb_exists; exists "#"; split.
  - apply in_or_app; right; left; reflexivity.
  - apply String.eqb_refl.
Qed.

Lemma match_loop_final_hash (pre t1 sfx : list string) (i : nat) :
  ~ In "#" pre -> (i + length pre <= length t1)%nat ->
  match_loop i pre t1 = true ->
  match_loop i (pre ++ ["#"]) (t1 ++ sfx) = true.
Proof.
  revert i; induction pre as [|x pre IH]; intros i Hn Hlen Hm; simpl in *.
  - reflexivity.
  - assert (Hp : ~ In "#" pre) by (intros H; apply Hn; right; exact H).
    destruct (String.eqb x "#"); [reflexivity|].
    destruct (String.eqb x "+"); [apply IH; [exact Hp|lia|exact Hm]|].
    rewrite lookup_app_l by lia.
    destruct (t1 !! i); [|discriminate].
    destruct (String.eqb x s); [apply IH; [exact Hp|lia|exact Hm]|discriminate].
Qed.

(** The four examples of P5 hold. *)
Lemma topic_matches_P5_examples :
  topic_matches "devices/+/status" "devices/42/status" = true /\
  topic_matches "devices/#" "devices/42/status/extra" = true /\
  topic_matches "devices/+/status" "devices/42/other" = false /\
  topic_matches "a/b" "a/b/c" = false.
Proof. vm_compute. repeat split. Qed.

(** Token lists of different lengths never match without a ['#']. *)
Lemma matches_parts_length_mismatch (sp tp : list string) :
  length sp <> length tp -> ~ In "#" sp -> matches_parts sp tp = false.
Proof.
  intros Hl Hn; unfold matches_parts.
  destruct (Nat.eqb_spec (length sp) (length tp)); [contradiction|].
  destruct (existsb (String.eqb "#") sp) eqn:E; [|reflexivity].
  apply existsb_exists in E as [x [Hx Hx']].
  apply String.eqb_eq in Hx'; subst x; contradiction.
Qed.

(** A final ['#'] accepts any remaining suffix, the empty one included. *)
Lemma matches_parts_final_hash (pre t1 sfx : list string) :
  ~ In "#" pre -> length pre = length t1 -> matches_parts pre t1 = true ->
  matches_parts (pre ++ ["#"]) (t1 ++ sfx) = true.
Proof.
  intros Hn Hl Hm; unfold matches_parts in *.
  rewrite (existsb_hash_app pre []); simpl; rewrite andb_false_r.
  rewrite <- Hl, Nat.eqb_refl in Hm; simpl in Hm.
  apply match_loop_final_hash; [exact Hn|lia|exact Hm].
Qed.

(** C6 (code evaluated at the failing input): the pattern "a/+/#"
    matches the one-token topic "a", so its '+' matched no token. *)
Theorem topic_plus_matches_no_token :
  topic_matches "a/+/#" "a" = true /\
  split_slash "a/+/#" = ["a"; "+"; "#"] /\ split_slash "a" = ["a"].
Proof. vm_compute. repeat split. Qed.

(** C7 counterexample: the malformed pattern "a/#/b" (a non-final '#')
    matches "a/c", which is not token-for-token equal to it. *)
Lemma topic_malformed_matches_other :
  topic_matches "a/#/b" "a/c" = true /\ split_slash "a/#/b" <> split_slash "a/c".
Proof. vm_compute. split; [reflexivity|discriminate]. Qed.

(** C7 (amended): the matcher is a total boolean function, and a pattern
    is decided by its tokens up to and including its first '#': the
    tokens after that '#' are ignored, so a non-final '#' behaves as a
    final one. *)
Theorem topic_matches_truncates_at_hash (p t : string) (pre rest : list string) :
  split_slash p = pre ++ "#" :: rest -> ~ In "#" pre ->
  topic_matches p t = matches_parts (pre ++ ["#"]) (split_slash t).
Proof.
  intros Hs Hn; unfold topic_matches, matches_parts; rewrite Hs.
  rewrite existsb_hash_app, (existsb_hash_app pre []); simpl.
  rewrite !andb_false_r.
  apply match_loop_app_hash; exact Hn.
Qed.

Lemma topic_matches_truncates_at_hash_witness :
  topic_matches "a/#/b" "a/c" = matches_parts ["a"; "#"] ["a"; "c"].
Proof.
  apply (topic_matches_truncates_at_hash "a/#/b" "a/c" ["a"] ["b"]).
  - vm_compute; reflexivity.
  - simpl; intros [H|H]; [discriminate|exact H].
Defined.


Lemma string_app_cons (x : ascii) (a b : string) : String x a +:+ b = String x (a +:+ b).
Proof. reflexivity. Qed.

Lemma string_app_assoc (a b c : string) : (a +:+ b) +:+ c = a +:+ (b +:+ c).
Proof. induction a as [|x a IH]; [reflexivity|rewrite !string_app_cons, IH; reflexivity]. Qed.

Lemma string_app_nil_r (a : string) : a +:+ "" = a.
Proof. induction a as [|x a IH]; [reflexivity|rewrite string_app_cons, IH; reflexivity]. Qed.

Lemma split_aux_cons (s cur : string) : exists x xs, split_aux s cur = x :: xs.
Proof.
  revert cur; induction s as [|c s IH]; intros cur; simpl; [eauto|].
  destruct (Ascii.eqb c "/"%char); eauto.
Qed.

Lemma join_slash_cons2 (a b : string) (l : list string) :
  join_slash (a :: b :: l) = a +:+ String "/" (join_slash (b :: l)).
Proof. reflexivity. Qed.

Lemma join_split_aux (s cur : string) : join_slash (split_aux s cur) = cur +:+ s.
Proof.
  revert cur; induction s as [|c s IH]; intros cur; simpl.
  - symmetry; apply string_app_nil_r.
  - destruct (Ascii.eqb_spec c "/"%char) as [->|_].
    + destruct (split_aux_cons s "") as [x [xs E]].
      rewrite E, join_slash_cons2, <- E, IH; reflexivity.
    + rewrite IH, string_app_assoc; reflexivity.
Qed.

Lemma split_slash_inj (s t : string) : split_slash s = split_slash t -> s = t.
Proof.
  intros E; pose proof (join_split_aux s "") as Hs; pose proof (join_split_aux t "") as Ht.
  unfold split_slash in E; rewrite E in Hs; change ("" +:+ s) with s in Hs; change ("" +:+ t) with t in Ht; congruence.
Qed.

Lemma match_loop_cons (i : nat) (sp : list string) (t : string) (tp : list string) :
  match_loop (S i) sp (t :: tp) = match_loop i sp tp.
Proof.
  revert i; induction sp as [|s rest IH]; intros i; [reflexivity|]; cbn [match_loop].
  destruct (String.eqb s "#"); [reflexivity|].
  destruct (String.eqb s "+"); [apply IH|].
  change ((t :: tp) !! S i) with (tp !! i).
  destruct (tp !! i); [|reflexivity].
  destruct (String.eqb s _); [apply IH|reflexivity].
Qed.

Lemma match_loop_no_hash (sp tp : list string) :
  existsb (String.eqb "#") sp = false -> length sp = length tp ->
  (match_loop 0 sp tp = true <-> Forall2 (fun s t => s = "+" \/ s = t) sp tp).
Proof.
  revert tp; induction sp as [|s rest IH]; intros tp Hh Hl.
  - destruct tp; [split; intros; [constructor|reflexivity]|simpl in Hl; lia].
  - destruct tp as [|t tp]; [simpl in Hl; lia|].
    cbn [existsb] in Hh; apply orb_false_iff in Hh as [Hs Hh].
    simpl in Hl; injection Hl as Hl.
    rewrite Forall2_cons; cbn [match_loop].
    rewrite String.eqb_sym, Hs.
    destruct (String.eqb_spec s "+") as [->|Hp].
    + rewrite match_loop_cons, IH by assumption.
      split; [intros H; split; [left; reflexivity|exact H]|intros [_ H]; exact H].
    + change ((t :: tp) !! 0%nat) with (Some t); cbv iota beta.
      destruct (String.eqb_spec s t) as [->|Hne].
      * rewrite match_loop_cons, IH by assumption.
        split; [intros H; split; [right; reflexivity|exact H]|intros [_ H]; exact H].
      * split; [discriminate|intros [[E|E] _]; contradiction].
Qed.

Lemma forall2_plus_free (l k : list string) :
  existsb (String.eqb "+") l = false ->
  Forall2 (fun s t => s = "+" \/ s = t) l k -> l = k.
Proof.
  intros Hp F; induction F as [|s t l k [E|E] F IH]; [reflexivity| |].
  - subst s; cbn [existsb] in Hp; rewrite String.eqb_refl in Hp; discriminate.
  - cbn [existsb] in Hp; apply orb_false_iff in Hp as [_ Hp]; rewrite E, IH by exact Hp; reflexivity.
Qed.

Lemma match_loop_self (pre sp : list string) : match_loop (length pre) sp (pre ++ sp) = true.
Proof.
  revert pre; induction sp as [|s rest IH]; intros pre; [reflexivity|]; cbn [match_loop].
  assert (E : pre ++ s :: rest = (pre ++ [s]) ++ rest) by (rewrite <- app_assoc; reflexivity).
  assert (L : S (length pre) = length (pre ++ [s])) by (rewrite length_app; simpl; lia).
  destruct (String.eqb s "#"); [reflexivity|].
  destruct (String.eqb s "+"); [rewrite E, L; apply IH|].
  rewrite list_lookup_middle by reflexivity.
  rewrite String.eqb_refl, E, L; apply IH.
Qed.

(** Every subscription string matches itself as a topic, wildcard tokens
    included. *)
Theorem topic_matches_refl (s : string) : topic_matches s s = true.
Proof.
  unfold topic_matches, matches_parts; rewrite Nat.eqb_refl; cbn [negb andb].
  exact (match_loop_self [] (split_slash s)).
Qed.

(** Without a ['#'] token, a subscription matches exactly the topics with
    as many levels, each level equal to the subscription's token at that
    level unless that token is ['+']. *)
Theorem topic_matches_no_hash (sub topic : string)
    (Hh : existsb (String.eqb "#") (split_slash sub) = false) :
  topic_matches sub topic = true <->
  Forall2 (fun s t => s = "+" \/ s = t) (split_slash sub) (split_slash topic).
Proof.
  unfold topic_matches, matches_parts; rewrite Hh.
  destruct (Nat.eqb_spec (length (split_slash sub)) (length (split_slash topic))) as [E|E];
    cbn [negb andb].
  - apply match_loop_no_hash; assumption.
  - split; [discriminate|intros F; apply Forall2_length in F; contradiction].
Qed.

Lemma topic_matches_no_hash_witness :
  existsb (String.eqb "#") (split_slash "devices/+/status") = false /\
  (topic_matches "devices/+/status" "devices/cam1/status" = true <->
   Forall2 (fun s t => s = "+" \/ s = t) (split_slash "devices/+/status")
     (split_slash "devices/cam1/status")).
Proof.
  split; [vm_compute; reflexivity|].
  apply topic_matches_no_hash; vm_compute; reflexivity.
Defined.

(** A subscription with neither ['+'] nor ['#'] token matches exactly one
    topic: itself. *)
Theorem topic_matches_literal (sub topic : string)
    (Hh : existsb (String.eqb "#") (split_slash sub) = false)
    (Hp : existsb (String.eqb "+") (split_slash sub) = false) :
  topic_matches sub topic = true <-> sub = topic.
Proof.
  split.
  - intros H; apply (topic_matches_no_hash sub topic Hh) in H.
    apply split_slash_inj, forall2_plus_free; assumption.
  - intros <-; apply topic_matches_refl.
Qed.

Lemma topic_matches_literal_witness :
  existsb (String.eqb "#") (split_slash "devices/broadcast") = false /\
  existsb (String.eqb "+") (split_slash "devices/broadcast") = false /\
  (topic_matches "devices/broadcast" "devices/cam1" = true <-> "devices/broadcast" = "devices/cam1").
Proof.
  split; [vm_compute; reflexivity|split; [vm_compute; reflexivity|]].
  apply topic_matches_literal; vm_compute; reflexivity.
Defined.

End TopicFacts.

(** ** Registry *)

Section RegistryFacts.
Import Registry.
Local Open Scope Z_scope.
Local Open Scope list_scope.

Lemma consistent_init : consistent init.
Proof. intros id; simpl; split; [set_solver|]. intros [i [H _]]; discriminate. Qed.

(** Setting [id] to an Active record while adding it to the set. *)
Lemma consistent_insert_active (m : DeviceManager) (id : string) (info : DeviceInfo) :
  consistent m -> status info = Active ->
  consistent {| devices := <[id := info]> (devices m);
                active_devices := {[id]} ∪ active_devices m |}.
Proof.
  intros Hc Hs id'; simpl.
  destruct (decide (id' = id)) as [->|Hne].
  - rewrite lookup_insert_eq; split; [intros _; eauto|set_solver].
  - rewrite lookup_insert_ne by congruence.
    rewrite elem_of_union, elem_of_singleton, <- (Hc id'); tauto.
Qed.

(** Setting [id] to a non-Active record (or removing it) while taking it
    out of the set. *)
Lemma consistent_insert_offline (m : DeviceManager) (id : string) (info : DeviceInfo) :
  consistent m -> status info = Offline ->
  consistent {| devices := <[id := info]> (devices m);
                active_devices := active_devices m ∖ {[id]} |}.
Proof.
  intros Hc Hs id'; simpl.
  destruct (decide (id' = id)) as [->|Hne].
  - rewrite lookup_insert_eq; split; [set_solver|].
    intros [i [Hi Ha]]; inversion Hi; subst; congruence.
  - rewrite lookup_insert_ne by congruence.
    rewrite elem_of_difference, elem_of_singleton, <- (Hc id'); tauto.
Qed.

Lemma consistent_delete (m : DeviceManager) (id : string) :
  consistent m ->
  consistent {| devices := delete id (devices m);
                active_devices := active_devices m ∖ {[id]} |}.
Proof.
  intros Hc id'; simpl.
  destruct (decide (id' = id)) as [->|Hne].
  - rewrite lookup_delete_eq; split; [set_solver|]. intros [i [Hi _]]; discriminate.
  - rewrite lookup_delete_ne by congruence.
    rewrite elem_of_difference, elem_of_singleton, <- (Hc id'); tauto.
Qed.

Lemma consistent_sweep_entry (t : Z) (acc : DeviceManager * list string)
    (e : string * DeviceInfo) :
  consistent acc.1 -> consistent (sweep_entry t acc e).1.
Proof.
  destruct acc as [m offl], e as [id info]; simpl; intros Hc.
  destruct (stale t info); simpl; [|exact Hc].
  apply consistent_insert_offline; [exact Hc|reflexivity].
Qed.

Lemma consistent_sweep_fold (t : Z) (l : list (string * DeviceInfo))
    (acc : DeviceManager * list string) :
  consistent acc.1 -> consistent (foldl (sweep_entry t) acc l).1.
Proof.
  revert acc; induction l as [|e l IH]; intros acc Hc; simpl; [exact Hc|].
  apply IH, consistent_sweep_entry, Hc.
Qed.

Lemma consistent_step (db : gmap string DbDevice) (m : DeviceManager) (op : Op) :
  consistent m -> consistent (step db m op).
Proof.
  intros Hc; destruct op as [id ip now|id now o|id|now]; simpl.
  - apply consistent_insert_active; [exact Hc|reflexivity].
  - unfold update_device_heartbeat.
    destruct (devices m !! id); simpl; [|exact Hc].
    apply consistent_insert_active; [exact Hc|reflexivity].
  - unfold unregister_device.
    destruct (devices m !! id); simpl; [|exact Hc].
    apply consistent_delete, Hc.
  - apply (consistent_sweep_fold now _ (m, [])), Hc.
Qed.

Lemma consistent_run_from (db : gmap string DbDevice) (ops : list Op) (m : DeviceManager) :
  consistent m -> consistent (foldl (step db) m ops).
Proof.
  revert m; induction ops as [|op ops IH]; intros m Hc; simpl; [exact Hc|].
  apply IH, consistent_step, Hc.
Qed.

Lemma sweep_entry_ne (t : Z) (acc : DeviceManager * list string) (k id : string)
    (v : DeviceInfo) :
  k <> id ->
  devices (sweep_entry t acc (k, v)).1 !! id = devices acc.1 !! id /\
  (id ∈ (sweep_entry t acc (k, v)).2 <-> id ∈ acc.2).
Proof.
  destruct acc as [m offl]; simpl; intros Hne.
  destruct (stale t v); simpl; [|tauto].
  rewrite lookup_insert_ne by exact Hne; split; [reflexivity|].
  rewrite elem_of_app, list_elem_of_singleton; split; [intros [H|H]; congruence|tauto].
Qed.

Lemma sweep_entry_self (t : Z) (acc : DeviceManager * list string) (k : string)
    (v : DeviceInfo) :
  devices (sweep_entry t acc (k, v)).1 !! k =
    (if stale t v then Some (set_status Offline v) else devices acc.1 !! k) /\
  (k ∈ (sweep_entry t acc (k, v)).2 <-> k ∈ acc.2 \/ stale t v = true).
Proof.
  destruct acc as [m offl]; simpl.
  destruct (stale t v); simpl.
  - rewrite lookup_insert_eq; split; [reflexivity|].
    rewrite elem_of_app, list_elem_of_singleton; tauto.
  - split; [reflexivity|]. split; [tauto|intros [H|H]; [exact H|discriminate]].
Qed.

(** Keys absent from the iterated entries are untouched by the loop. *)
Lemma sweep_fold_absent (t : Z) (l : list (string * DeviceInfo))
    (acc : DeviceManager * list string) (id : string) :
  id ∉ l.*1 ->
  devices (foldl (sweep_entry t) acc l).1 !! id = devices acc.1 !! id /\
  (id ∈ (foldl (sweep_entry t) acc l).2 <-> id ∈ acc.2).
Proof.
  revert acc; induction l as [|[k v] l IH]; intros acc Hn; simpl; [tauto|].
  simpl in Hn; rewrite not_elem_of_cons in Hn; destruct Hn as [Hk Hn].
  destruct (IH (sweep_entry t acc (k, v)) Hn) as [IH1 IH2].
  destruct (sweep_entry_ne t acc k id v) as [E1 E2]; [congruence|].
  rewrite IH1, E1, IH2, E2; tauto.
Qed.

(** An iterated entry ends up as the loop body leaves it. *)
Lemma sweep_fold_present (t : Z) (l : list (string * DeviceInfo))
    (acc : DeviceManager * list string) (id : string) (info : DeviceInfo) :
  NoDup l.*1 -> (id, info) ∈ l ->
  devices (foldl (sweep_entry t) acc l).1 !! id =
    (if stale t info then Some (set_status Offline info) else devices acc.1 !! id) /\
  (id ∈ (foldl (sweep_entry t) acc l).2 <-> id ∈ acc.2 \/ stale t info = true).
Proof.
  revert acc; induction l as [|[k v] l IH]; intros acc Hnd Hin; simpl.
  - inversion Hin.
  - simpl in Hnd; apply NoDup_cons in Hnd as [Hk Hnd].
    apply elem_of_cons in Hin as [Heq|Hin].
    + inversion Heq; subst k v.
      destruct (sweep_fold_absent t l (sweep_entry t acc (id, info)) id Hk) as [A1 A2].
      destruct (sweep_entry_self t acc id info) as [S1 S2].
      rewrite A1, A2, S1, S2; tauto.
    + assert (Hne : k <> id).
      { intros ->; apply Hk. apply list_elem_of_fmap; exists (id, info); split; [reflexivity|exact Hin]. }
      destruct (IH (sweep_entry t acc (k, v)) Hnd Hin) as [P1 P2].
      destruct (sweep_entry_ne t acc k id v Hne) as [E1 E2].
      rewrite P1, E1, P2, E2; tauto.
Qed.

(** One pass of the sweep, per device: the record is kept, its status
    flipped to Offline exactly when [stale] holds, and it is reported in
    [devices_to_mark_offline] exactly then. *)
Lemma sweep_lookup (t : Z) (m : DeviceManager) (id : string) :
  devices (sweep t m).1 !! id =
    (match devices m !! id with
     | Some info => Some (if stale t info then set_status Offline info else info)
     | None => None
     end) /\
  (id ∈ (sweep t m).2 <-> exists info, devices m !! id = Some info /\ stale t info = true).
Proof.
  unfold sweep.
  destruct (devices m !! id) as [info|] eqn:E.
  - assert (Hin : (id, info) ∈ map_to_list (devices m)) by (apply elem_of_map_to_list; exact E).
    destruct (sweep_fold_present t _ (m, []) id info (NoDup_fst_map_to_list _) Hin) as [P1 P2].
    rewrite P1, P2; simpl.
    split; [destruct (stale t info); congruence|].
    rewrite elem_of_nil. split; [intros [[]|H]; eauto|intros [i [Hi Hs]]; right; congruence].
  - assert (Hn : id ∉ (map_to_list (devices m)).*1).
    { intros Hin; apply list_elem_of_fmap in Hin as [[k v] [Hk Hin]]; simpl in Hk; subst k.
      apply elem_of_map_to_list in Hin; congruence. }
    destruct (sweep_fold_absent t _ (m, []) id Hn) as [A1 A2].
    rewrite A1, A2; simpl; split; [exact E|].
    rewrite elem_of_nil; split; [tauto|intros [i [Hi _]]; discriminate].
Qed.


Lemma heartbeat_result (id : string) (now : Z) (o : DbOutcome) (m : DeviceManager)
    (db : gmap string DbDevice) :
  (update_device_heartbeat id now o m db).1.1 = true <-> is_Some (devices m !! id).
Proof.
  unfold update_device_heartbeat; destruct (devices m !! id); simpl.
  - split; [intros _; eexists; reflexivity|reflexivity].
  - split; [discriminate|intros [x Hx]; discriminate].
Qed.

Lemma heartbeat_db_irrelevant (id : string) (now : Z) (o o' : DbOutcome)
    (m : DeviceManager) (db db' : gmap string DbDevice) :
  (update_device_heartbeat id now o m db).1 = (update_device_heartbeat id now o' m db').1.
Proof. unfold update_device_heartbeat; destruct (devices m !! id); reflexivity. Qed.

Lemma heartbeat_trace_spec (id : string) (calls : list (Z * DbOutcome))
    (m : DeviceManager) (db : gmap string DbDevice) (info : DeviceInfo) :
  devices m !! id = Some info ->
  Sorted Z.le (last_heartbeat info :: map fst calls) ->
  Forall (fun p => p.1 = true /\ exists i, p.2 = Some i /\ status i = Active)
         (heartbeat_trace id calls m db) /\
  Sorted Z.le (last_heartbeat info :: omap (fun p => last_heartbeat <$> p.2)
                                           (heartbeat_trace id calls m db)).
Proof.
  revert m db info; induction calls as [|[now o] calls IH]; intros m db info Hm Hs; simpl.
  - split; [constructor|repeat constructor].
  - assert (E : update_device_heartbeat id now o m db =
              (true, {| devices := <[id := set_status Active (set_heartbeat now info)]> (devices m);
                        active_devices := {[id]} ∪ active_devices m |},
               db_mark_active id now o db))
      by (unfold update_device_heartbeat; rewrite Hm; reflexivity).
    rewrite E; simpl.
    apply Sorted_inv in Hs as [Hs Hhd]; apply HdRel_inv in Hhd; simpl in Hhd.
    destruct (IH {| devices := <[id := set_status Active (set_heartbeat now info)]> (devices m);
                    active_devices := {[id]} ∪ active_devices m |}
                 (db_mark_active id now o db) (set_status Active (set_heartbeat now info)))
      as [IH1 IH2]; [simpl; apply lookup_insert_eq|exact Hs|].
    simpl; rewrite lookup_insert_eq; simpl.
    split.
    + constructor; [split; [reflexivity|eexists; split; reflexivity]|exact IH1].
    + constructor; [exact IH2|constructor; exact Hhd].
Qed.

Lemma broadcast_fold (post : string -> PostResult) (m : DeviceManager) (l : list string)
    (sent failed : nat) (tried : list string) :
  foldl (fun acc id =>
           let '((sent, failed), tried) := acc in
           match devices m !! id with
           | None => ((sent, failed), tried)
           | Some info =>
               match post (ip_address info) with
               | Reply code =>
                   if Z.eqb code 200 then ((S sent, failed), tried ++ [ip_address info])
                   else ((sent, S failed), tried ++ [ip_address info])
               | Raised => ((sent, S failed), tried ++ [ip_address info])
               end
           end) ((sent, failed), tried) l =
  (((sent + length (filter (fun i => delivered post i = true) (omap (fun id => devices m !! id) l)))%nat,
    (failed + length (filter (fun i => delivered post i = false) (omap (fun id => devices m !! id) l)))%nat),
   tried ++ map ip_address (omap (fun id => devices m !! id) l)).
Proof.
  revert sent failed tried; induction l as [|id l IH]; intros sent failed tried; simpl.
  - rewrite !Nat.add_0_r, app_nil_r; reflexivity.
  - destruct (devices m !! id) as [info|] eqn:E; [|apply IH].
    simpl; rewrite !filter_cons.
    destruct (delivered post info) eqn:D.
    + rewrite decide_True by reflexivity; rewrite decide_False by discriminate.
      unfold delivered in D; destruct (post (ip_address info)) as [code|]; [|discriminate].
      rewrite D, IH; simpl; rewrite <- app_assoc, ?Nat.add_succ_r; reflexivity.
    + rewrite decide_False by discriminate; rewrite decide_True by reflexivity.
      unfold delivered in D; destruct (post (ip_address info)) as [code|].
      * rewrite D, IH; simpl; rewrite <- app_assoc, ?Nat.add_succ_r; reflexivity.
      * rewrite IH; simpl; rewrite <- app_assoc, ?Nat.add_succ_r; reflexivity.
Qed.

Lemma length_omap_all_some (m : DeviceManager) (l : list string) :
  (forall id, id ∈ l -> is_Some (devices m !! id)) ->
  length (omap (fun id => devices m !! id) l) = length l.
Proof.
  induction l as [|id l IH]; intros H; simpl; [reflexivity|].
  destruct (H id (list_elem_of_here _ _)) as [x Hx]; rewrite Hx; simpl.
  f_equal; apply IH. intros j Hj; apply H, list_elem_of_further, Hj.
Qed.

Lemma length_filter_bool (A : Type) (f : A -> bool) (l : list A) :
  (length (filter (fun x => f x = true) l) + length (filter (fun x => f x = false) l))%nat
  = length l.
Proof.
  induction l as [|x l IH]; simpl; [reflexivity|].
  rewrite !filter_cons.
  destruct (decide (f x = true)), (decide (f x = false)); simpl;
    destruct (f x); try congruence; lia.
Qed.

Lemma size_active_elements (m : DeviceManager) :
  size (active_devices m) = length (elements (active_devices m)).
Proof. reflexivity. Qed.





(** C2: along heartbeats on a registered device under a non-decreasing
    clock, every call returns [true], leaves the device Active, and the
    recorded [last_heartbeat] values never decrease; in general a
    heartbeat returns [true] exactly when the device is known, and the
    store outcome changes neither the result nor the in-memory registry. *)
Theorem heartbeat_monotone (id : string) (calls : list (Z * DbOutcome))
    (m : DeviceManager) (db : gmap string DbDevice) (info : DeviceInfo)
    (Hreg : devices m !! id = Some info)
    (Hclk : Sorted Z.le (last_heartbeat info :: map fst calls)) :
  Forall (fun p => p.1 = true /\ exists i, p.2 = Some i /\ status i = Active)
         (heartbeat_trace id calls m db) /\
  Sorted Z.le (last_heartbeat info :: omap (fun p => last_heartbeat <$> p.2)
                                           (heartbeat_trace id calls m db)) /\
  (forall (id' : string) (now : Z) (o : DbOutcome) (m' : DeviceManager)
          (db' : gmap string DbDevice),
     (update_device_heartbeat id' now o m' db').1.1 = true <-> is_Some (devices m' !! id')) /\
  (forall (id' : string) (now : Z) (o o' : DbOutcome) (m' : DeviceManager)
          (db1 db2 : gmap string DbDevice),
     (update_device_heartbeat id' now o m' db1).1 = (update_device_heartbeat id' now o' m' db2).1).
Proof.
  destruct (heartbeat_trace_spec id calls m db info Hreg Hclk) as [A B].
  split; [exact A|]. split; [exact B|].
  split; [exact heartbeat_result|exact heartbeat_db_irrelevant].
Qed.

Lemma heartbeat_monotone_witness :
  Forall (fun p => p.1 = true /\ exists i, p.2 = Some i /\ status i = Active)
    (heartbeat_trace "cam1" [(5000000, DbUp); (7000000, DbRaises)]
       (register_device "cam1" "10.0.0.5" 0 init).2 ∅).
Proof.
  apply (heartbeat_monotone "cam1" [(5000000, DbUp); (7000000, DbRaises)]
           (register_device "cam1" "10.0.0.5" 0 init).2 ∅
           {| device_id := "cam1"; ip_address := "10.0.0.5"; status := Active;
              last_heartbeat := 0; connected_at := 0; protocol := "mqtt" |}).
  - vm_compute; reflexivity.
  - simpl; repeat constructor; simpl; lia.
Defined.

(** C3: "in [active_devices] iff present in [devices] with status Active"
    holds initially, is preserved by register, heartbeat, unregister and
    the sweep, and so holds in every reachable registry. *)
Theorem registry_views_consistent :
  consistent init /\
  (forall (db : gmap string DbDevice) (m : DeviceManager) (op : Op),
     consistent m -> consistent (step db m op)) /\
  (forall (t : Z) (acc : DeviceManager * list string) (e : string * DeviceInfo),
     consistent acc.1 -> consistent (sweep_entry t acc e).1) /\
  (forall (db : gmap string DbDevice) (ops : list Op), consistent (run db ops)).
Proof.
  split; [exact consistent_init|].
  split; [exact consistent_step|].
  split; [exact consistent_sweep_entry|].
  intros db ops; apply consistent_run_from, consistent_init.
Qed.

(** C8: under the registry invariant, a broadcast posts once to the
    address of every Active device, in the order of the set, never more
    than once; it counts a device as sent exactly when the reply is 200
    and as failed otherwise (non-200 reply or exception), the counts
    adding up to the number of Active devices; with three Active devices
    of which one delivery fails, the result is [(2, 1)]. *)
Theorem broadcast_counts (post : string -> PostResult) (m : DeviceManager)
    (Hc : consistent m) :
  let '((sent, failed), tried) := broadcast_message post m in
  sent = length (filter (fun i => delivered post i = true) (active_infos m)) /\
  failed = length (filter (fun i => delivered post i = false) (active_infos m)) /\
  tried = map ip_address (active_infos m) /\
  length (active_infos m) = size (active_devices m) /\
  (sent + failed)%nat = size (active_devices m) /\
  (size (active_devices m) = 3%nat ->
   length (filter (fun i => delivered post i = false) (active_infos m)) = 1%nat ->
   (sent, failed) = (2%nat, 1%nat)).
Proof.
  unfold broadcast_message; rewrite broadcast_fold; simpl.
  assert (Hl : length (active_infos m) = size (active_devices m)).
  { rewrite size_active_elements; unfold active_infos.
    apply length_omap_all_some; intros id Hid.
    apply elem_of_elements, Hc in Hid as [i [Hi _]]; rewrite Hi; eexists; reflexivity. }
  pose proof (length_filter_bool _ (delivered post) (active_infos m)) as Hf.
  unfold active_infos in *.
  split; [reflexivity|]. split; [reflexivity|]. split; [reflexivity|].
  split; [exact Hl|]. split; [lia|].
  intros H3 H1; f_equal; lia.
Qed.

Lemma broadcast_counts_witness :
  (broadcast_message (fun ip => if String.eqb ip "10.0.0.6" then Raised else Reply 200)
     (run ∅ [OpRegister "cam1" "10.0.0.5" 0; OpRegister "cam2" "10.0.0.6" 0;
             OpRegister "cam3" "10.0.0.7" 0])).1 = (2%nat, 1%nat).
Proof.
  pose proof (broadcast_counts (fun ip => if String.eqb ip "10.0.0.6" then Raised else Reply 200)
     (run ∅ [OpRegister "cam1" "10.0.0.5" 0; OpRegister "cam2" "10.0.0.6" 0;
             OpRegister "cam3" "10.0.0.7" 0])
     (consistent_run_from ∅ _ init consistent_init)) as H.
  destruct (broadcast_message _ _) as [[sent failed] tried].
  destruct H as (_ & _ & _ & _ & _ & H); simpl.
  apply H; vm_compute; reflexivity.
Defined.

(** ** Further registry operations *)

(** [unregister_device] forgets the device: its status reads as unknown
    afterwards, the call returns [true] exactly when it was registered, an
    unknown id leaves the registry untouched, a registered one leaves the
    active list, and no other device changes: not its status, not its
    record, not its membership in the active list. *)
Theorem unregister_forgets (id : string) (m : DeviceManager) :
  get_device_status id (unregister_device id m).2 = None /\
  ((unregister_device id m).1 = true <-> is_Some (devices m !! id)) /\
  (devices m !! id = None -> unregister_device id m = (false, m)) /\
  (is_Some (devices m !! id) -> id ∉ get_active_devices (unregister_device id m).2) /\
  (forall id' : string, id' <> id ->
     get_device_status id' (unregister_device id m).2 = get_device_status id' m /\
     get_device_info id' (unregister_device id m).2 = get_device_info id' m /\
     (id' ∈ get_active_devices (unregister_device id m).2 <-> id' ∈ get_active_devices m)).
Proof.
  unfold unregister_device, get_device_status, get_device_info, get_active_devices.
  destruct (devices m !! id) as [info|] eqn:E; simpl.
  - rewrite lookup_delete_eq; split; [reflexivity|].
    split; [split; [intros _; eexists; reflexivity|reflexivity]|].
    split; [discriminate|].
    split; [intros _; rewrite elem_of_elements; set_solver|].
    intros id' Hne; rewrite lookup_delete_ne by congruence.
    split; [reflexivity|]. split; [reflexivity|].
    rewrite !elem_of_elements; set_solver.
  - rewrite E; split; [reflexivity|].
    split; [split; [discriminate|intros [x Hx]; discriminate]|].
    split; [reflexivity|]. split; [intros [x Hx]; discriminate|].
    intros id' _; split; [reflexivity|]; split; reflexivity.
Qed.




Lemma sweep_fold_none_stale (t : Z) (l : list (string * DeviceInfo))
    (acc : DeviceManager * list string) :
  Forall (fun e => stale t e.2 = false) l -> foldl (sweep_entry t) acc l = acc.
Proof.
  revert acc; induction l as [|[k v] l IH]; intros [m offl] Hf; simpl; [reflexivity|].
  apply Forall_cons in Hf as [Hv Hf]; simpl in Hv; rewrite Hv; apply IH, Hf.
Qed.

(** The sweep is idempotent: a second pass at the same clock reading
    changes nothing and reports no device. It never makes a device Active
    and changes no field of a record other than its status. *)
Theorem sweep_idempotent (t : Z) (m : DeviceManager) :
  sweep t (sweep t m).1 = ((sweep t m).1, []) /\
  (forall (id : string) (info : DeviceInfo), devices m !! id = Some info ->
     exists info', devices (sweep t m).1 !! id = Some info' /\
       (status info' = Active -> status info = Active) /\
       info' = set_status (status info') info).
Proof.
  split.
  - unfold sweep at 1; apply sweep_fold_none_stale.
    apply Forall_forall; intros [id info'] Hin; simpl.
    apply elem_of_map_to_list in Hin.
    destruct (sweep_lookup t m id) as [L _]; rewrite Hin in L.
    destruct (devices m !! id) as [info|]; [|discriminate].
    inversion L; subst info'.
    destruct (stale t info) eqn:S; [unfold stale; simpl; apply andb_false_r|exact S].
  - intros id info E.
    destruct (sweep_lookup t m id) as [L _]; rewrite E in L.
    eexists; split; [exact L|].
    destruct (stale t info) eqn:S; simpl.
    + split; [discriminate|reflexivity].
    + split; [tauto|destruct info; reflexivity].
Qed.

(** The store side of a sweep: every reported device whose document is
    reachable ends up offline in the store, a device that raises is
    skipped without stopping the others, unreported devices are untouched
    and no document is created or removed. *)
Theorem sweep_store_update (offl : list string) (os : string -> DbOutcome)
    (db : gmap string DbDevice) :
  dom (db_mark_offline offl os db) = dom db /\
  (forall id : string, id ∉ offl -> db_mark_offline offl os db !! id = db !! id) /\
  (forall id : string, id ∈ offl -> os id = DbUp -> is_Some (db !! id) ->
     db_status <$> db_mark_offline offl os db !! id = Some Offline).
Proof.
  unfold db_mark_offline.
  revert db; induction offl as [|x offl IH]; intros db; simpl.
  - split; [reflexivity|]. split; [reflexivity|]. intros id Hin; inversion Hin.
  - set (db1 := match os x with
                | DbRaises => db
                | DbUp => match db !! x with
                          | Some d => <[x := {| db_status := Offline; last_online := last_online d |}]> db
                          | None => db
                          end
                end).
    assert (Hdom : dom db1 = dom db).
    { unfold db1; destruct (os x); [|reflexivity].
      destruct (db !! x) eqn:E; [|reflexivity].
      rewrite dom_insert_L; apply set_eq; intros k; rewrite elem_of_union, elem_of_singleton.
      split; [intros [->|H]; [apply elem_of_dom; eexists; exact E|exact H]|tauto]. }
    destruct (IH db1) as [D [U S]].
    split; [rewrite D; exact Hdom|]. split.
    + intros id Hn; apply not_elem_of_cons in Hn as [Hne Hn].
      rewrite U by exact Hn; unfold db1.
      destruct (os x); [|reflexivity]. destruct (db !! x); [|reflexivity].
      apply lookup_insert_ne; congruence.
    + intros id Hin Hos Hs.
      assert (Hs1 : is_Some (db1 !! id)) by (apply elem_of_dom; rewrite Hdom; apply elem_of_dom, Hs).
      destruct (decide (id ∈ offl)) as [Hi|Hi]; [apply S; assumption|].
      apply elem_of_cons in Hin as [->|Hin]; [|contradiction].
      rewrite U by exact Hi; unfold db1; rewrite Hos.
      destruct Hs as [d Hd]; rewrite Hd, lookup_insert_eq; reflexivity.
Qed.

(** The store side of a heartbeat never creates or removes a document; it
    is left alone for an unknown device; for a registered device whose
    document is reachable, the document becomes active with [last_online]
    at the heartbeat time. *)
Theorem heartbeat_store_sync (id : string) (now : Z) (o : DbOutcome) (m : DeviceManager)
    (db : gmap string DbDevice) :
  dom (update_device_heartbeat id now o m db).2 = dom db /\
  (devices m !! id = None -> (update_device_heartbeat id now o m db).2 = db) /\
  (is_Some (devices m !! id) -> o = DbUp -> is_Some (db !! id) ->
     (update_device_heartbeat id now o m db).2 !! id =
       Some {| db_status := Active; last_online := now |}).
Proof.
  unfold update_device_heartbeat.
  destruct (devices m !! id) as [info|]; simpl.
  - split.
    + unfold db_mark_active; destruct o; [|reflexivity].
      destruct (db !! id) eqn:E; [|reflexivity].
      rewrite dom_insert_L; apply set_eq; intros k; rewrite elem_of_union, elem_of_singleton.
      split; [intros [->|H]; [apply elem_of_dom; eexists; exact E|exact H]|tauto].
    + split; [discriminate|]. intros _ -> [d Hd]; simpl; rewrite Hd; apply lookup_insert_eq.
  - split; [reflexivity|]. split; [reflexivity|]. intros [x Hx]; discriminate.
Qed.

End RegistryFacts.

(** ** Data processor *)

Section ProcessorFacts.
Import Processor.
Local Open Scope Z_scope.
Local Open Scope list_scope.

Lemma qstep_max (dp : DataProcessor) (op : QOp) :
  max_queue_size (qstep dp op) = max_queue_size dp.
Proof.
  destruct op as [img md now|d ty md now|]; simpl.
  - unfold process_image; destruct (Nat.leb _ _); reflexivity.
  - unfold process_data; destruct (Nat.leb _ _); reflexivity.
  - unfold take_item; destruct (processing_queue dp); reflexivity.
Qed.

Lemma qstep_bounded (dp : DataProcessor) (op : QOp) :
  (length (processing_queue dp) <= max_queue_size dp)%nat ->
  (length (processing_queue (qstep dp op)) <= max_queue_size (qstep dp op))%nat.
Proof.
  intros H; rewrite qstep_max.
  destruct op as [img md now|d ty md now|]; simpl.
  - unfold process_image; destruct (Nat.leb_spec (max_queue_size dp) (length (processing_queue dp)));
      simpl; [exact H|rewrite length_app; simpl; lia].
  - unfold process_data; destruct (Nat.leb_spec (max_queue_size dp) (length (processing_queue dp)));
      simpl; [exact H|rewrite length_app; simpl; lia].
  - unfold take_item; destruct (processing_queue dp) as [|it rest] eqn:E; simpl in *;
      [rewrite E; simpl; lia|lia].
Qed.

Lemma qrun_bounded (ops : list QOp) (dp : DataProcessor) :
  (length (processing_queue dp) <= max_queue_size dp)%nat ->
  (length (processing_queue (foldl qstep dp ops)) <= max_queue_size (foldl qstep dp ops))%nat /\
  max_queue_size (foldl qstep dp ops) = max_queue_size dp.
Proof.
  revert dp; induction ops as [|op ops IH]; intros dp H; simpl; [split; [exact H|reflexivity]|].
  destruct (IH (qstep dp op) (qstep_bounded dp op H)) as [A B].
  split; [exact A|rewrite B; apply qstep_max].
Qed.

(** C4: a full queue ([len >= max_queue_size]) refuses an item and is left
    as it was; a queue below capacity gets the item appended and reports
    success; so from a new processor (capacity 100) no sequence of
    enqueues and dequeues ever holds more than 100 items. Both enqueue
    methods are total functions of the current state: they never wait. *)
Theorem queue_capacity :
  (forall (img : string) (md : option Metadata) (now : Z) (dp : DataProcessor),
     (max_queue_size dp <= length (processing_queue dp))%nat ->
     process_image img md now dp = (false, dp)) /\
  (forall (d : Payload) (ty : string) (md : option Metadata) (now : Z) (dp : DataProcessor),
     (max_queue_size dp <= length (processing_queue dp))%nat ->
     process_data d ty md now dp = (false, dp)) /\
  (forall (img : string) (md : option Metadata) (now : Z) (dp : DataProcessor),
     (length (processing_queue dp) < max_queue_size dp)%nat ->
     (process_image img md now dp).1 = true /\
     processing_queue (process_image img md now dp).2 =
       processing_queue dp ++ [{| item_type := "image"; data := PImage img;
                                 metadata := default empty_metadata md; timestamp := now |}]) /\
  (forall (d : Payload) (ty : string) (md : option Metadata) (now : Z) (dp : DataProcessor),
     (length (processing_queue dp) < max_queue_size dp)%nat ->
     (process_data d ty md now dp).1 = true /\
     processing_queue (process_data d ty md now dp).2 =
       processing_queue dp ++ [{| item_type := ty; data := d;
                                 metadata := default empty_metadata md; timestamp := now |}]) /\
  (forall (device_id : string) (ops : list QOp),
     max_queue_size (foldl qstep (new_processor device_id) ops) = 100%nat /\
     (length (processing_queue (foldl qstep (new_processor device_id) ops)) <= 100)%nat).
Proof.
  split; [intros img md now dp H; unfold process_image; rewrite (proj2 (Nat.leb_le _ _) H); reflexivity|].
  split; [intros d ty md now dp H; unfold process_data; rewrite (proj2 (Nat.leb_le _ _) H); reflexivity|].
  split; [intros img md now dp H; unfold process_image;
          rewrite (proj2 (Nat.leb_gt _ _) H); split; reflexivity|].
  split; [intros d ty md now dp H; unfold process_data;
          rewrite (proj2 (Nat.leb_gt _ _) H); split; reflexivity|].
  intros device_id ops.
  destruct (qrun_bounded ops (new_processor device_id)) as [A B]; [simpl; lia|].
  rewrite B in A |- *; split; [reflexivity|exact A].
Qed.

Lemma attendance_accepted (a : AttData) (md : Metadata) (ts : Z) (dp : DataProcessor)
    (u : string) :
  user_id a = Some u -> u <> "" ->
  match last_attendance_time dp !! u with
  | Some l => ts - l >= min_attendance_interval dp * 1000000
  | None => True
  end ->
  (process_attendance_data a md ts dp).1 =
    set_last_attendance (<[u := ts]> (last_attendance_time dp)) dp /\
  exists r, (process_attendance_data a md ts dp).2 = Some r /\ r_user_id r = u /\ r_timestamp r = ts.
Proof.
  intros Hu Hne Hok; unfold process_attendance_data; rewrite Hu.
  destruct (String.eqb_spec u ""); [contradiction|].
  destruct (last_attendance_time dp !! u) as [l|].
  - rewrite bool_decide_false by lia; simpl. split; [reflexivity|eexists; split; [reflexivity|split; reflexivity]].
  - simpl. split; [reflexivity|eexists; split; [reflexivity|split; reflexivity]].
Qed.

Lemma attendance_suppressed (a : AttData) (md : Metadata) (ts l : Z) (dp : DataProcessor)
    (u : string) :
  user_id a = Some u -> u <> "" ->
  last_attendance_time dp !! u = Some l ->
  ts - l < min_attendance_interval dp * 1000000 ->
  process_attendance_data a md ts dp = (dp, None).
Proof.
  intros Hu Hne Hl Hlt; unfold process_attendance_data; rewrite Hu.
  destruct (String.eqb_spec u ""); [contradiction|].
  rewrite Hl, bool_decide_true by exact Hlt; reflexivity.
Qed.

(** C5: two attendance items for the same subject [u], the first of them
    not itself a duplicate: if the second comes less than the cooldown
    (60 s for a new processor) after the first, only the first is
    forwarded and the suppressed one changes no state (the cooldown
    timestamp stays at the first's); if it comes at least the cooldown
    later, both are forwarded and each sets the subject's cooldown
    timestamp to its own. *)
Theorem attendance_cooldown (a1 a2 : AttData) (md1 md2 : Metadata) (u : string)
    (t1 t2 : Z) (dp : DataProcessor)
    (Hu1 : user_id a1 = Some u) (Hu2 : user_id a2 = Some u) (Hne : u <> "")
    (Hfirst : match last_attendance_time dp !! u with
              | Some l => t1 - l >= min_attendance_interval dp * 1000000
              | None => True
              end) :
  let '(dp1, r1) := process_attendance_data a1 md1 t1 dp in
  let '(dp2, r2) := process_attendance_data a2 md2 t2 dp1 in
  (t2 - t1 < min_attendance_interval dp * 1000000 ->
     is_Some r1 /\ r2 = None /\ dp2 = dp1 /\ last_attendance_time dp2 !! u = Some t1) /\
  (t2 - t1 >= min_attendance_interval dp * 1000000 ->
     is_Some r1 /\ is_Some r2 /\ last_attendance_time dp1 !! u = Some t1 /\
     last_attendance_time dp2 !! u = Some t2) /\
  min_attendance_interval (new_processor "") = 60.
Proof.
  destruct (attendance_accepted a1 md1 t1 dp u Hu1 Hne Hfirst) as [E1 [r1 [R1 _]]].
  destruct (process_attendance_data a1 md1 t1 dp) as [dp1 r1'] eqn:P1; simpl in E1, R1; subst dp1 r1'.
  set (dp1 := set_last_attendance (<[u := t1]> (last_attendance_time dp)) dp).
  assert (L1 : last_attendance_time dp1 !! u = Some t1) by (simpl; apply lookup_insert_eq).
  assert (M1 : min_attendance_interval dp1 = min_attendance_interval dp) by reflexivity.
  destruct (process_attendance_data a2 md2 t2 dp1) as [dp2 r2] eqn:P2.
  split; [|split; [|reflexivity]].
  - intros Hlt.
    rewrite (attendance_suppressed a2 md2 t2 t1 dp1 u Hu2 Hne L1) in P2 by (rewrite M1; exact Hlt).
    inversion P2; subst dp2 r2.
    split; [eexists; reflexivity|split; [reflexivity|split; [reflexivity|exact L1]]].
  - intros Hge.
    assert (Hok : match last_attendance_time dp1 !! u with
                  | Some l => t2 - l >= min_attendance_interval dp1 * 1000000
                  | None => True end) by (rewrite L1, M1; exact Hge).
    destruct (attendance_accepted a2 md2 t2 dp1 u Hu2 Hne Hok) as [E2 [r [R2 _]]].
    rewrite P2 in E2, R2; simpl in E2, R2; subst dp2 r2.
    split; [eexists; reflexivity|split; [eexists; reflexivity|split; [exact L1|]]].
    simpl; apply lookup_insert_eq.
Qed.

Lemma attendance_cooldown_witness :
  let a := {| user_id := Some "u1"; verification_method := None; att_status := None |} in
  let md := empty_metadata in
  let '(dp1, r1) := process_attendance_data a md 0 (new_processor "dev1") in
  let '(dp2, r2) := process_attendance_data a md 30000000 dp1 in
  (30000000 - 0 < min_attendance_interval (new_processor "dev1") * 1000000 ->
     is_Some r1 /\ r2 = None /\ dp2 = dp1 /\ last_attendance_time dp2 !! "u1" = Some 0).
Proof.
  pose proof (attendance_cooldown
                {| user_id := Some "u1"; verification_method := None; att_status := None |}
                {| user_id := Some "u1"; verification_method := None; att_status := None |}
                empty_metadata empty_metadata "u1" 0 30000000
                (new_processor "dev1") eq_refl eq_refl ltac:(discriminate) I) as H.
  cbv zeta.
  destruct (process_attendance_data _ _ 0 _) as [dp1 r1].
  destruct (process_attendance_data _ _ 30000000 dp1) as [dp2 r2].
  exact (proj1 H).
Defined.

(** C10: an attendance payload without a subject identifier ([user_id]
    absent or empty) forwards nothing and leaves the processor, its
    cooldown state included, exactly as it was, so every later item is
    processed as if it had not been seen. *)
Theorem attendance_missing_user (a : AttData) (md : Metadata) (ts : Z) (dp : DataProcessor)
    (Hmissing : falsy (user_id a) = true) :
  process_attendance_data a md ts dp = (dp, None) /\
  (forall (a' : AttData) (md' : Metadata) (ts' : Z),
     process_attendance_data a' md' ts' (process_attendance_data a md ts dp).1 =
     process_attendance_data a' md' ts' dp).
Proof.
  assert (E : process_attendance_data a md ts dp = (dp, None)).
  { unfold process_attendance_data; unfold falsy in Hmissing.
    destruct (user_id a) as [u|]; [|reflexivity].
    rewrite Hmissing; reflexivity. }
  split; [exact E|]. intros a' md' ts'; rewrite E; reflexivity.
Qed.

Lemma attendance_missing_user_witness :
  process_attendance_data {| user_id := Some ""; verification_method := None; att_status := None |}
    empty_metadata 0 (new_processor "dev1") = (new_processor "dev1", None).
Proof.
  apply (attendance_missing_user {| user_id := Some ""; verification_method := None; att_status := None |}
           empty_metadata 0 (new_processor "dev1")).
  reflexivity.
Defined.


Lemma set_last_attendance_id (dp : DataProcessor) :
  set_last_attendance (last_attendance_time dp) dp = dp.
Proof. destruct dp; reflexivity. Qed.

Lemma set_queue_id (dp : DataProcessor) : set_queue (processing_queue dp) dp = dp.
Proof. destruct dp; reflexivity. Qed.

Lemma first_face_spec (faces : list (option string)) (f : string) :
  first_face faces = Some f ->
  exists pre post, faces = pre ++ Some f :: post /\ Forall (fun x => x = None) pre.
Proof.
  induction faces as [|[g|] rest IH]; simpl; intros H; [discriminate| |].
  - injection H as <-; exists [], rest; split; [reflexivity|constructor].
  - destruct (IH H) as [pre [post [E F]]].
    exists (None :: pre), post; split; [rewrite E; reflexivity|constructor; [reflexivity|exact F]].
Qed.

Lemma first_face_some (faces : list (option string)) (face : string) :
  In (Some face) faces -> exists f, first_face faces = Some f.
Proof.
  induction faces as [|[g|] rest IH]; simpl; intros H; [contradiction| |].
  - exists g; reflexivity.
  - destruct H as [H|H]; [discriminate|exact (IH H)].
Qed.

Lemma process_image_data_face (det : option FaceDetector) (d : Payload) (md : Metadata)
    (dp : DataProcessor) (p : Post) :
  process_image_data det d md dp = Some p ->
  exists detect s f, det = Some detect /\ (d = PImage s \/ d = PSensor s) /\
    (exists faces, detect s = Some faces /\ first_face faces = Some (f_face_data f)) /\
    p = FacePost f /\ f_device_id f = dp_device_id dp /\
    f_verification_method f = "face_recognition".
Proof.
  unfold process_image_data.
  destruct det as [detect|]; [|discriminate].
  assert (K : forall s, match detect s with
                        | Some faces => match first_face faces with
                                        | Some face => Some (FacePost {| f_face_data := face;
                                            f_device_id := dp_device_id dp;
                                            f_verification_method := "face_recognition";
                                            f_location := default (Some "") (location md) |})
                                        | None => None end
                        | None => None end = Some p ->
                   exists f, (exists faces, detect s = Some faces /\ first_face faces = Some (f_face_data f)) /\
                     p = FacePost f /\ f_device_id f = dp_device_id dp /\
                     f_verification_method f = "face_recognition").
  { intros s; destruct (detect s) as [faces|]; [|discriminate].
    destruct (first_face faces) as [face|] eqn:F; [|discriminate].
    intros H; injection H as <-.
    exists {| f_face_data := face; f_device_id := dp_device_id dp;
              f_verification_method := "face_recognition";
              f_location := default (Some "") (location md) |}.
    split; [exists faces; split; [reflexivity|exact F]|].
    split; [reflexivity|split; reflexivity]. }
  destruct d as [s|a|s]; [| discriminate |];
    intros H; destruct (K s H) as [f [Hf [Hp [Hd Hv]]]];
    exists detect, s, f; repeat split; auto.
Qed.

Lemma process_item_cases (det : option FaceDetector) (it : Item) (dp : DataProcessor) :
  (exists p, process_item det it dp = (dp, p) /\
     (forall r, p <> Some (AttendancePost r)) /\
     (forall q, p = Some q -> post_device_id q = dp_device_id dp)) \/
  exists v r,
    process_item det it dp =
      (set_last_attendance (<[v := timestamp it]> (last_attendance_time dp)) dp,
       Some (AttendancePost r)) /\
    r_user_id r = v /\ r_timestamp r = timestamp it /\ r_device_id r = dp_device_id dp /\
    (forall l, last_attendance_time dp !! v = Some l ->
       timestamp it - l >= min_attendance_interval dp * 1000000) /\
    item_type it = "attendance".
Proof.
  unfold process_item.
  destruct (String.eqb (item_type it) "image").
  { left; eexists; split; [reflexivity|split].
    - intros r H; destruct (process_image_data_face _ _ _ _ _ H) as [? [? [f [_ [_ [_ [E _]]]]]]];
        discriminate.
    - intros q H; destruct (process_image_data_face _ _ _ _ _ H) as [? [? [f [_ [_ [_ [E [D _]]]]]]]];
        subst q; exact D. }
  destruct (String.eqb_spec (item_type it) "attendance") as [Hatt|_].
  2:{ destruct (String.eqb (item_type it) "sensor").
      - left; eexists; split; [reflexivity|unfold process_sensor_data].
        destruct (report_to_backend (metadata it)); split; intros ? H; try discriminate.
        injection H as <-; reflexivity.
      - left; exists None; split; [reflexivity|split; intros ? H; discriminate]. }
  destruct (data it) as [|a|];
    [left; exists None; split; [reflexivity|split; intros ? H; discriminate]| |
     left; exists None; split; [reflexivity|split; intros ? H; discriminate]].
  unfold process_attendance_data.
  destruct (user_id a) as [v|];
    [|left; exists None; split; [reflexivity|split; intros ? H; discriminate]].
  destruct (String.eqb v "");
    [left; exists None; split; [reflexivity|split; intros ? H; discriminate]|].
  destruct (last_attendance_time dp !! v) as [l|] eqn:L.
  - case_bool_decide; [left; exists None; split; [reflexivity|split; intros ? H'; discriminate]|].
    right; exists v; eexists; split; [reflexivity|].
    split; [reflexivity|split; [reflexivity|split; [reflexivity|]]].
    split; [|exact Hatt]. intros l' Hl'; rewrite L in Hl'; injection Hl' as <-; lia.
  - right; exists v; eexists; split; [reflexivity|].
    split; [reflexivity|split; [reflexivity|split; [reflexivity|]]].
    split; [|exact Hatt]. intros l' Hl'; congruence.
Qed.

Lemma process_item_set_queue (det : option FaceDetector) (it : Item) (q : list Item)
    (dp : DataProcessor) :
  process_item det it (set_queue q dp) =
    (set_queue q (process_item det it dp).1, (process_item det it dp).2).
Proof.
  assert (Ha : forall a md ts,
    process_attendance_data a md ts (set_queue q dp) =
      (set_queue q (process_attendance_data a md ts dp).1, (process_attendance_data a md ts dp).2)).
  { intros a md ts; unfold process_attendance_data; simpl; repeat case_match; reflexivity. }
  unfold process_item.
  destruct (String.eqb (item_type it) "image"); [reflexivity|].
  destruct (String.eqb (item_type it) "attendance");
    [|destruct (String.eqb (item_type it) "sensor"); reflexivity].
  destruct (data it) as [|a|]; try reflexivity.
  rewrite Ha; destruct (process_attendance_data a (metadata it) (timestamp it) dp); reflexivity.
Qed.

Lemma run_items_set_queue (det : option FaceDetector) (items : list Item) (q : list Item)
    (dp : DataProcessor) :
  run_items det items (set_queue q dp) =
    (set_queue q (run_items det items dp).1, (run_items det items dp).2).
Proof.
  revert dp; induction items as [|it rest IH]; intros dp; [reflexivity|].
  cbn [run_items]; rewrite process_item_set_queue.
  destruct (process_item det it dp) as [dp1 r]; simpl.
  rewrite IH; destruct (run_items det rest dp1); reflexivity.
Qed.

(** [_process_item] only ever changes the cooldown map: the queue, its
    capacity, the device id and the interval are left as they were. An
    item whose type is not ['attendance'] changes nothing and forwards no
    attendance report. An image item sends nothing without a face
    detector; otherwise it sends at most one face-identification request
    to [/api/attendance/mark], carrying the first non-empty face the
    detector returned, and it does send one when the detector returns a
    non-empty face for a string image. A sensor item sends a report
    exactly when its metadata asks for one; an item of any other type does
    nothing. *)
Theorem process_item_effect (det : option FaceDetector) (it : Item) (dp : DataProcessor) :
  (process_item det it dp).1 =
    set_last_attendance (last_attendance_time (process_item det it dp).1) dp /\
  (item_type it <> "attendance" ->
     (process_item det it dp).1 = dp /\
     forall r, (process_item det it dp).2 <> Some (AttendancePost r)) /\
  (item_type it = "image" -> det = None -> process_item det it dp = (dp, None)) /\
  (item_type it = "image" -> forall p, (process_item det it dp).2 = Some p ->
     exists detect s pre post f,
       det = Some detect /\ (data it = PImage s \/ data it = PSensor s) /\
       detect s = Some (pre ++ Some (f_face_data f) :: post) /\
       Forall (fun x => x = None) pre /\
       p = FacePost f /\ post_path p = "/api/attendance/mark" /\
       f_device_id f = dp_device_id dp /\ f_verification_method f = "face_recognition") /\
  (forall detect s faces face, item_type it = "image" -> det = Some detect ->
     data it = PImage s -> detect s = Some faces -> In (Some face) faces ->
     exists f, (process_item det it dp).2 = Some (FacePost f)) /\
  (item_type it = "sensor" ->
     (process_item det it dp).1 = dp /\
     (is_Some (process_item det it dp).2 <-> report_to_backend (metadata it) = true)) /\
  (item_type it <> "image" -> item_type it <> "attendance" -> item_type it <> "sensor" ->
     process_item det it dp = (dp, None)).
Proof.
  split; [|split; [|split; [|split; [|split; [|split]]]]].
  - destruct (process_item_cases det it dp) as [[p [E _]]|[v [r [E _]]]]; rewrite E; simpl;
      [symmetry; apply set_last_attendance_id|reflexivity].
  - intros Hty.
    destruct (process_item_cases det it dp)
      as [[p [E [Np _]]]|[v [r [E [_ [_ [_ [_ Hatt]]]]]]]];
      [rewrite E; split; [reflexivity|exact Np]|contradiction].
  - intros Hty Hd; subst det; unfold process_item; rewrite Hty; reflexivity.
  - intros Hty p; unfold process_item; rewrite Hty; simpl; intros H.
    destruct (process_image_data_face _ _ _ _ _ H)
      as [detect [s [f [Hd [Hs [[faces [Hf Hfirst]] [Hp [Hdev Hv]]]]]]]].
    destruct (first_face_spec faces (f_face_data f) Hfirst) as [pre [post [Ef Fpre]]].
    exists detect, s, pre, post, f; subst p.
    repeat split; auto; rewrite Hf, Ef; reflexivity.
  - intros detect s faces face Hty Hd Hs Hf Hin.
    unfold process_item; rewrite Hty; simpl; unfold process_image_data; rewrite Hd, Hs, Hf.
    destruct (first_face_some faces face Hin) as [g Hg]; rewrite Hg; eexists; reflexivity.
  - intros Hty; unfold process_item; rewrite Hty; simpl.
    split; [reflexivity|]; unfold process_sensor_data.
    destruct (report_to_backend (metadata it)); split; intros H;
      [reflexivity|eexists; reflexivity|destruct H; discriminate|discriminate].
  - intros H1 H2 H3; unfold process_item.
    destruct (String.eqb_spec (item_type it) "image"); [contradiction|].
    destruct (String.eqb_spec (item_type it) "attendance"); [contradiction|].
    destruct (String.eqb_spec (item_type it) "sensor"); [contradiction|reflexivity].
Qed.

Lemma process_item_effect_witness :
  let det : option FaceDetector := Some (fun _ => Some [None; Some "ZmFjZTE="; Some "ZmFjZTI="]) in
  let it := {| item_type := "image"; data := PImage "data:image/jpeg;base64,/9j/4AAQ";
               metadata := empty_metadata; timestamp := 0 |} in
  (exists f, (process_item det it (new_processor "dev1")).2 = Some (FacePost f)) /\
  (process_item det it (new_processor "dev1")).2 =
    Some (FacePost {| f_face_data := "ZmFjZTE="; f_device_id := "dev1";
                      f_verification_method := "face_recognition"; f_location := Some "" |}).
Proof.
  cbv zeta; split; [|reflexivity].
  destruct (process_item_effect (Some (fun _ => Some [None; Some "ZmFjZTE="; Some "ZmFjZTI="]))
              {| item_type := "image"; data := PImage "data:image/jpeg;base64,/9j/4AAQ";
                 metadata := empty_metadata; timestamp := 0 |} (new_processor "dev1"))
    as [_ [_ [_ [_ [H _]]]]].
  apply (H (fun _ => Some [None; Some "ZmFjZTE="; Some "ZmFjZTI="]) "data:image/jpeg;base64,/9j/4AAQ"
           [None; Some "ZmFjZTE="; Some "ZmFjZTI="] "ZmFjZTE=");
    [reflexivity|reflexivity|reflexivity|reflexivity|simpl; right; left; reflexivity].
Defined.

(** Whatever the order and timestamps of the items processed, the
    attendance reports forwarded for one subject are spaced by at least the
    cooldown, the first of them also from the subject's timestamp already
    recorded; every post, of whatever kind, carries the processor's
    device id. *)
Theorem run_items_reports (det : option FaceDetector) (items : list Item)
    (dp : DataProcessor) (u : string) :
  Sorted (fun x y => y - x >= min_attendance_interval dp * 1000000)
    (option_list (last_attendance_time dp !! u) ++
     map r_timestamp (List.filter (fun r => String.eqb (r_user_id r) u)
                        (attendance_reports (run_items det items dp).2))) /\
  Forall (fun p => post_device_id p = dp_device_id dp) (run_items det items dp).2.
Proof.
  revert dp; induction items as [|it rest IH]; intros dp.
  - simpl; rewrite app_nil_r; split; [|constructor].
    destruct (last_attendance_time dp !! u); simpl; repeat constructor.
  - cbn [run_items].
    destruct (process_item_cases det it dp)
      as [[p [E [Np Dp]]]|[v [r [E [Hv [Ht [Hd [Hgap _]]]]]]]]; rewrite E.
    + destruct (IH dp) as [A B]; destruct (run_items det rest dp) as [dp2 ps]; simpl in A, B |- *.
      destruct p as [q|]; simpl; [|exact (conj A B)].
      split; [|constructor; [exact (Dp q eq_refl)|exact B]].
      destruct q as [r|f|s]; [exfalso; exact (Np r eq_refl)|exact A|exact A].
    + set (dp1 := set_last_attendance (<[v := timestamp it]> (last_attendance_time dp)) dp).
      destruct (IH dp1) as [A B].
      destruct (run_items det rest dp1) as [dp2 rs]; simpl in A, B |- *.
      split; [|constructor; [exact Hd|exact B]].
      destruct (String.eqb_spec (r_user_id r) u) as [Hu|Hu]; simpl.
      * subst v; rewrite Hu in A; rewrite lookup_insert_eq in A; simpl in A.
        rewrite Ht.
        destruct (last_attendance_time dp !! u) as [l|] eqn:L; simpl; [|exact A].
        constructor; [exact A|constructor; rewrite <- Hu in L; apply (Hgap l L)].
      * rewrite lookup_insert_ne in A by congruence; exact A.
Qed.

(** Running the processing loop over a queue that no producer touches any
    more handles the queued items in arrival order, as many iterations as
    there are items leaving the queue empty. *)
Theorem drain_spec (det : option FaceDetector) (n : nat) (dp : DataProcessor)
    (Hn : (length (processing_queue dp) <= n)%nat) :
  drain det n dp = run_items det (processing_queue dp) (set_queue [] dp).
Proof.
  remember (processing_queue dp) as q eqn:Hq; revert n dp Hq Hn.
  induction q as [|it rest IH]; intros n dp Hq Hn.
  - assert (D : set_queue [] dp = dp) by (rewrite Hq; apply set_queue_id).
    destruct n as [|n]; simpl; [rewrite D; reflexivity|].
    unfold take_item; rewrite <- Hq; rewrite D; reflexivity.
  - destruct n as [|n]; [simpl in Hn; lia|].
    cbn [drain run_items]; unfold take_item; rewrite <- Hq.
    rewrite !process_item_set_queue.
    destruct (process_item det it dp) as [dp1 r]; simpl.
    rewrite (IH n (set_queue rest dp1)) by (simpl in *; first [reflexivity|lia]).
    reflexivity.
Qed.

(** Three queued attendance items: "u1" at 0 s, "u1" again at 30 s and "u2"
    at 40 s. Draining the queue handles them in arrival order, so the
    first "u1" item is reported and the second one, inside the cooldown,
    is suppressed. *)
Lemma drain_spec_witness :
  let att (u : string) (t : Z) :=
    {| item_type := "attendance";
       data := PAttendance {| user_id := Some u; verification_method := None;
                              att_status := None |};
       metadata := empty_metadata; timestamp := t |} in
  let dp := set_queue [att "u1" 0; att "u1" 30000000; att "u2" 40000000]
                      (new_processor "dev1") in
  (length (processing_queue dp) <= 3)%nat /\
  drain None 3 dp = run_items None (processing_queue dp) (set_queue [] dp) /\
  map (fun r => (r_user_id r, r_timestamp r)) (attendance_reports (drain None 3 dp).2) =
    [("u1", 0); ("u2", 40000000)].
Proof.
  cbv zeta; split; [simpl; lia|split].
  - apply drain_spec; simpl; lia.
  - vm_compute; reflexivity.
Defined.

(** A burst of [process_data] calls: the first [room] entries, where [room]
    is the space left in the queue, are accepted and appended in order, all
    later ones are refused; a refusal never comes before an acceptance. *)
Theorem enqueue_all_spec (xs : list (Payload * string * option Metadata * Z))
    (dp : DataProcessor) :
  let room := (max_queue_size dp - length (processing_queue dp))%nat in
  enqueue_all xs dp =
    (repeat true (Nat.min room (length xs)) ++ repeat false (length xs - room),
     set_queue (processing_queue dp ++ map mk_item (firstn room xs)) dp).
Proof.
  revert dp; induction xs as [|x rest IH]; intros dp; cbv zeta.
  - cbn [enqueue_all length]; rewrite firstn_nil, Nat.min_0_r; simpl; rewrite !app_nil_r, set_queue_id; reflexivity.
  - destruct x as [[[d ty] md] now]; cbn [enqueue_all].
    unfold process_data.
    destruct (Nat.leb_spec (max_queue_size dp) (length (processing_queue dp))) as [Hf|Hr].
    + specialize (IH dp); cbv zeta in IH; rewrite IH.
      assert (R : (max_queue_size dp - length (processing_queue dp) = 0)%nat) by lia.
      rewrite R; simpl; rewrite Nat.sub_0_r; reflexivity.
    + set (dp1 := set_queue (processing_queue dp ++
                    [{| item_type := ty; data := d; metadata := default empty_metadata md;
                        timestamp := now |}]) dp).
      specialize (IH dp1); cbv zeta in IH; rewrite IH.
      assert (R : (max_queue_size dp - length (processing_queue dp) =
                   S (max_queue_size dp1 - length (processing_queue dp1)))%nat)
        by (simpl; rewrite length_app; simpl; lia).
      rewrite R; simpl; rewrite <- app_assoc; reflexivity.
Qed.

(** Producer then consumer: after a burst of [process_data] calls, enough
    iterations of the processing loop handle the items already queued and
    then the accepted ones, each exactly once, in the order they came. *)
Theorem queue_fifo (det : option FaceDetector) (xs : list (Payload * string * option Metadata * Z))
    (dp : DataProcessor) (n : nat)
    (Hn : (length (processing_queue dp) + length xs <= n)%nat) :
  drain det n (enqueue_all xs dp).2 =
    run_items det (processing_queue dp ++
                   map mk_item (firstn (max_queue_size dp - length (processing_queue dp)) xs))
              (set_queue [] dp).
Proof.
  rewrite (enqueue_all_spec xs dp); simpl.
  rewrite drain_spec; [reflexivity|].
  simpl; rewrite length_app, length_map, length_firstn; lia.
Qed.

Lemma queue_fifo_witness :
  (length (processing_queue (new_processor "dev1")) + 2 <= 2)%nat /\
  drain None 2 (enqueue_all [(PSensor "t", "sensor", None, 0); (PSensor "h", "sensor", None, 1)]
                  (new_processor "dev1")).2 =
    run_items None (processing_queue (new_processor "dev1") ++
                    map mk_item (firstn (max_queue_size (new_processor "dev1") -
                                         length (processing_queue (new_processor "dev1")))
                        [(PSensor "t", "sensor", None, 0); (PSensor "h", "sensor", None, 1)]))
              (set_queue [] (new_processor "dev1")).
Proof.
  split; [simpl; lia|].
  apply (queue_fifo None [(PSensor "t", "sensor", None, 0); (PSensor "h", "sensor", None, 1)]
           (new_processor "dev1") 2); simpl; lia.
Defined.

End ProcessorFacts.

(** ** Control messages *)

Section ControlFacts.
Import Control.
Local Open Scope list_scope.

Lemma on_message_decoded (c : MQTTClient) (topic : string) (d : Decoded) :
  d <> NotUtf8 ->
  on_message c topic d =
    if String.eqb topic (control_topic c) then handle_control_message c d
    else if existsb (String.eqb topic) (message_callbacks c) then [CallbackRun topic topic]
    else match List.find (fun reg => Topic.topic_matches reg topic) (message_callbacks c) with
         | Some reg => [CallbackRun reg topic]
         | None => []
         end.
Proof. destruct d; [contradiction|reflexivity..]. Qed.

Lemma decoded_utf8_cases (d : Decoded) : d = NotUtf8 \/ d <> NotUtf8.
Proof. destruct d; [left; reflexivity|right; discriminate..]. Qed.




Lemma filter_not_in (l : list string) (t : string) :
  ~ In t l -> List.filter (fun x => negb (String.eqb x t)) l = l.
Proof.
  induction l as [|x l IH]; intros Hn; [reflexivity|]; simpl.
  destruct (String.eqb_spec x t) as [->|]; [simpl in Hn; tauto|].
  simpl; rewrite IH; [reflexivity|]; simpl in Hn; tauto.
Qed.

Lemma existsb_eqb_In (l : list string) (t : string) :
  existsb (String.eqb t) l = true <-> In t l.
Proof.
  rewrite existsb_exists; split.
  - intros [x [Hx E]]; apply String.eqb_eq in E; subst x; exact Hx.
  - intros H; exists t; split; [exact H|apply String.eqb_refl].
Qed.

Lemma handle_control_no_callback (c : MQTTClient) (d : Decoded) :
  existsb is_callback_run (handle_control_message c d) = false.
Proof. unfold handle_control_message, publish; repeat case_match; reflexivity. Qed.

Lemma subscribe_device_id (c : MQTTClient) (t : string) (ok : bool) :
  client_device_id (subscribe c t ok).2 = client_device_id c.
Proof. unfold subscribe; destruct (is_connected c), ok; reflexivity. Qed.

Lemma subscribe_keeps (c : MQTTClient) (t x : string) (ok : bool) :
  In x (message_callbacks c) -> In x (message_callbacks (subscribe c t ok).2).
Proof.
  intros H; unfold subscribe; destruct (is_connected c), ok; simpl; try exact H.
  destruct (existsb _ _); [exact H|apply in_or_app; left; exact H].
Qed.

Lemma subscribe_adds (c : MQTTClient) (t : string) :
  is_connected c = true -> In t (message_callbacks (subscribe c t true).2).
Proof.
  intros Hc; unfold subscribe; rewrite Hc; simpl.
  destruct (existsb (String.eqb t) (message_callbacks c)) eqn:E;
    [apply existsb_eqb_In; exact E|apply in_or_app; right; left; reflexivity].
Qed.

Lemma find_first (f : string -> bool) (pre : list string) (reg : string) (post : list string) :
  Forall (fun p => f p = false) pre -> f reg = true ->
  List.find f (pre ++ reg :: post) = Some reg.
Proof.
  induction pre as [|p pre IH]; intros Fp Hr; simpl; [rewrite Hr; reflexivity|].
  inversion Fp as [|? ? Hp Fp']; subst; rewrite Hp; exact (IH Fp' Hr).
Qed.

(** Dispatch of a message on any topic but the device's control topic.
    A payload that is not UTF-8 raises in [decode] before any dispatch,
    so nothing runs. Otherwise either nothing runs or exactly one
    registered callback does, and nothing is ever published: an exact
    registration runs first, whatever patterns are registered; failing
    one, the callback of the first registered pattern the topic matches
    runs, not a later one; and some callback runs as soon as any
    registered topic or pattern matches. *)
Theorem on_message_dispatch (c : MQTTClient) (topic : string) (d : Decoded)
    (Htop : topic <> control_topic c) :
  (d = NotUtf8 -> on_message c topic d = []) /\
  (on_message c topic d = [] \/
   exists reg, on_message c topic d = [CallbackRun reg topic] /\
     In reg (message_callbacks c) /\ (reg = topic \/ Topic.topic_matches reg topic = true)) /\
  existsb is_published (on_message c topic d) = false /\
  (d <> NotUtf8 -> In topic (message_callbacks c) ->
     on_message c topic d = [CallbackRun topic topic]) /\
  (d <> NotUtf8 -> ~ In topic (message_callbacks c) ->
     forall (pre : list string) (reg : string) (post : list string),
       message_callbacks c = pre ++ reg :: post ->
       Forall (fun p => Topic.topic_matches p topic = false) pre ->
       Topic.topic_matches reg topic = true ->
       on_message c topic d = [CallbackRun reg topic]) /\
  (d <> NotUtf8 ->
     (exists reg, In reg (message_callbacks c) /\
        (reg = topic \/ Topic.topic_matches reg topic = true)) ->
     exists reg, on_message c topic d = [CallbackRun reg topic] /\
       In reg (message_callbacks c) /\ (reg = topic \/ Topic.topic_matches reg topic = true)).
Proof.
  destruct (decoded_utf8_cases d) as [->|Hd].
  { split; [reflexivity|]. split; [left; reflexivity|]. split; [reflexivity|].
    split; [intros H; exfalso; exact (H eq_refl)|].
    split; intros H; exfalso; exact (H eq_refl). }
  rewrite (on_message_decoded c topic d Hd).
  destruct (String.eqb_spec topic (control_topic c)) as [|_]; [contradiction|].
  split; [intros E; contradiction|].
  split.
  { destruct (existsb (String.eqb topic) (message_callbacks c)) eqn:Ex.
    - right; exists topic; split; [reflexivity|split; [apply existsb_eqb_In; exact Ex|left; reflexivity]].
    - destruct (List.find _ _) as [reg|] eqn:F; [|left; reflexivity].
      apply List.find_some in F as [Hr Hm].
      right; exists reg; split; [reflexivity|split; [exact Hr|right; exact Hm]]. }
  split.
  { destruct (existsb (String.eqb topic) (message_callbacks c)); [reflexivity|].
    destruct (List.find (fun reg => Topic.topic_matches reg topic) (message_callbacks c));
      reflexivity. }
  split; [intros _ Hin; apply existsb_eqb_In in Hin; rewrite Hin; reflexivity|].
  split.
  - intros _ Hn pre reg post E Fp Hm.
    assert (Ex : existsb (String.eqb topic) (message_callbacks c) = false).
    { destruct (existsb _ _) eqn:Ex; [apply existsb_eqb_In in Ex; contradiction|reflexivity]. }
    rewrite Ex, E, (find_first _ pre reg post Fp Hm); reflexivity.
  - intros _ [reg0 [Hr0 Hm0]].
    destruct (existsb (String.eqb topic) (message_callbacks c)) eqn:Ex.
    + exists topic; split; [reflexivity|split; [apply existsb_eqb_In; exact Ex|left; reflexivity]].
    + destruct (List.find (fun reg => Topic.topic_matches reg topic) (message_callbacks c))
        as [reg|] eqn:F.
      * apply List.find_some in F as [Hr Hm].
        exists reg; split; [reflexivity|split; [exact Hr|right; exact Hm]].
      * exfalso; destruct Hm0 as [->|Hm0].
        -- apply existsb_eqb_In in Hr0; congruence.
        -- apply (List.find_none _ _ F) in Hr0; congruence.
Qed.

(** The topic matches both "devices/+/status" and "devices/#": the first
    one registered runs; a payload that is not UTF-8 runs nothing. *)
Lemma on_message_dispatch_witness :
  let c := {| client_device_id := "cam1"; is_connected := true;
              message_callbacks := ["devices/+/image"; "devices/+/status"; "devices/#"] |} in
  "devices/cam2/status" <> control_topic c /\
  on_message c "devices/cam2/status" (Object None) =
    [CallbackRun "devices/+/status" "devices/cam2/status"] /\
  on_message c "devices/cam2/status" NotUtf8 = [].
Proof.
  cbv zeta.
  assert (H : "devices/cam2/status" <> control_topic
                {| client_device_id := "cam1"; is_connected := true;
                   message_callbacks := ["devices/+/image"; "devices/+/status"; "devices/#"] |})
    by (vm_compute; discriminate).
  split; [exact H|].
  destruct (on_message_dispatch _ _ (Object None) H) as [_ [_ [_ [_ [E _]]]]].
  destruct (on_message_dispatch _ _ NotUtf8 H) as [U _].
  split; [|exact (U eq_refl)].
  apply (E ltac:(discriminate)
           ltac:(simpl; intros [H1|[H1|[H1|[]]]]; discriminate)
           ["devices/+/image"] "devices/+/status" ["devices/#"]);
    [reflexivity|constructor; [vm_compute; reflexivity|constructor]|vm_compute; reflexivity].
Defined.

(** The device client registers a callback for its own control topic, but
    [_on_message] hands every message on that topic to the built-in
    control handler first: whatever the payload, no registered callback
    ever runs for it. *)
Theorem control_topic_shadows_callbacks (c : MQTTClient) (ok1 ok2 : bool) :
  let c' := register_mqtt_handlers c ok1 ok2 in
  (forall d, existsb is_callback_run (on_message c' (control_topic c') d) = false) /\
  (is_connected c = true -> ok1 = true -> In (control_topic c') (message_callbacks c')).
Proof.
  cbv zeta; split.
  - intros d; destruct (decoded_utf8_cases d) as [->|Hd]; [reflexivity|].
    rewrite (on_message_decoded _ _ d Hd), String.eqb_refl; apply handle_control_no_callback.
  - intros Hc Hok; subst ok1; unfold register_mqtt_handlers.
    unfold control_topic; rewrite !subscribe_device_id.
    apply subscribe_keeps, subscribe_adds; exact Hc.
Qed.

(** A disconnected client publishes nothing, whatever message arrives:
    [publish] refuses, so no acknowledgement leaves. *)
Theorem disconnected_publishes_nothing (c : MQTTClient) (topic : string) (d : Decoded)
    (Hoff : is_connected c = false) :
  existsb is_published (on_message c topic d) = false.
Proof.
  unfold on_message, handle_control_message, publish; rewrite Hoff.
  repeat case_match; reflexivity.
Qed.

Lemma disconnected_publishes_nothing_witness :
  let c := {| client_device_id := "cam1"; is_connected := false; message_callbacks := [] |} in
  is_connected c = false /\
  existsb is_published (on_message c "devices/cam1/control" (Object (Some "ping"))) = false.
Proof.
  cbv zeta; split; [reflexivity|].
  apply disconnected_publishes_nothing; reflexivity.
Defined.

(** On a connected client whose broker call succeeds, [subscribe] reports
    success and the next message on that exact topic (other than the
    control topic) runs that callback, provided its payload decodes as
    UTF-8; unsubscribing a topic subscribed
    afresh gives back the client as it was. *)
Theorem subscribe_unsubscribe (c : MQTTClient) (topic : string) (d : Decoded)
    (Hc : is_connected c = true) :
  (subscribe c topic true).1 = true /\
  (topic <> control_topic c -> d <> NotUtf8 ->
     on_message (subscribe c topic true).2 topic d = [CallbackRun topic topic]) /\
  (~ In topic (message_callbacks c) ->
     unsubscribe (subscribe c topic true).2 topic true = (true, c)).
Proof.
  unfold subscribe; rewrite Hc; simpl.
  split; [reflexivity|split].
  - intros Htop Hd; rewrite (on_message_decoded _ _ d Hd).
    unfold control_topic in *; cbn [client_device_id set_callbacks].
    destruct (String.eqb_spec topic ("devices/" +:+ client_device_id c +:+ "/control"))
      as [E|_]; [contradiction|].
    assert (Hin : existsb (String.eqb topic)
                    (message_callbacks (set_callbacks
                       (if existsb (String.eqb topic) (message_callbacks c)
                        then message_callbacks c else message_callbacks c ++ [topic]) c)) = true).
    { simpl; destruct (existsb (String.eqb topic) (message_callbacks c)) eqn:E; [exact E|].
      apply existsb_eqb_In, in_or_app; right; left; reflexivity. }
    rewrite Hin; reflexivity.
  - intros Hn.
    assert (E : existsb (String.eqb topic) (message_callbacks c) = false).
    { destruct (existsb _ _) eqn:E; [apply existsb_eqb_In in E; contradiction|reflexivity]. }
    rewrite E; unfold unsubscribe; simpl; rewrite Hc; simpl.
    rewrite List.filter_app, filter_not_in by exact Hn; simpl.
    rewrite String.eqb_refl, app_nil_r; destruct c; reflexivity.
Qed.

Lemma subscribe_unsubscribe_witness :
  let c := {| client_device_id := "cam1"; is_connected := true; message_callbacks := [] |} in
  is_connected c = true /\
  ((subscribe c "devices/broadcast" true).1 = true /\
   ("devices/broadcast" <> control_topic c -> NotJson <> NotUtf8 ->
      on_message (subscribe c "devices/broadcast" true).2 "devices/broadcast" NotJson =
        [CallbackRun "devices/broadcast" "devices/broadcast"]) /\
   (~ In "devices/broadcast" (message_callbacks c) ->
      unsubscribe (subscribe c "devices/broadcast" true).2 "devices/broadcast" true = (true, c))).
Proof.
  cbv zeta; split; [reflexivity|].
  apply subscribe_unsubscribe; reflexivity.
Defined.

End ControlFacts.

(** ** Device configuration *)

Section ConfigFacts.
Import Config.
Local Open Scope Z_scope.
Local Open Scope list_scope.

Lemma well_formed_WF (h : Heap) (rank : loc -> Z) :
  well_formed h rank = true -> WF h rank.
Proof.
  unfold well_formed; intros H l d k l' Hl Hk.
  apply forallb_forall with (x := (l, d)) in H; [|apply list_elem_of_In, elem_of_map_to_list; exact Hl].
  apply forallb_forall with (x := (k, VDict l')) in H; [|apply list_elem_of_In, elem_of_map_to_list; exact Hk].
  destruct (h !! l') as [d'|]; [|discriminate].
  split; [eexists; reflexivity|apply Z.ltb_lt; exact H].
Qed.

Lemma split_aux_dot_cons (s cur : string) : exists x xs, split_aux s cur = x :: xs.
Proof.
  revert cur; induction s as [|c s IH]; intros cur; simpl; [eauto|].
  destruct (Ascii.eqb c "."%char); eauto.
Qed.

Lemma split_dot_nonempty (s : string) : split_dot s <> [].
Proof. unfold split_dot; destruct (split_aux_dot_cons s "") as [x [xs ->]]; discriminate. Qed.

Lemma walk_from_empty (ps : list string) (h : Heap) (n : loc) :
  h !! n = Some ∅ -> exists h1 c, walk h n ps = (h1, Some c).
Proof.
  revert h n; induction ps as [|p rest IH]; intros h n Hn; [eauto|].
  cbn [walk]; rewrite Hn, lookup_empty.
  apply IH, lookup_insert_eq.
Qed.

Lemma walk_fail (ps : list string) (h h1 : Heap) (r : loc) :
  walk h r ps = (h1, None) -> h1 = h.
Proof.
  revert h r; induction ps as [|p rest IH]; intros h r W; [discriminate|].
  cbn [walk] in W.
  destruct (h !! r) as [d|]; [|congruence].
  destruct (d !! p) as [v|] eqn:Dp.
  - destruct v; try congruence. eapply IH; exact W.
  - destruct (walk_from_empty rest
                (<[fresh (dom h) := ∅]> (<[r := <[p := VDict (fresh (dom h))]> d]> h))
                (fresh (dom h)) (lookup_insert_eq _ _ _)) as [h2 [c W2]].
    congruence.
Qed.

Lemma fresh_not_in (h : Heap) : h !! fresh (dom h) = None.
Proof. apply not_elem_of_dom, is_fresh. Qed.

Lemma walk_mono (ps : list string) (h h1 : Heap) (r : loc) (oc : option loc) :
  walk h r ps = (h1, oc) ->
  forall l d, h !! l = Some d -> exists d', h1 !! l = Some d' /\ d ⊆ d'.
Proof.
  revert h r; induction ps as [|p rest IH]; intros h r W l d Hl.
  - cbn in W; injection W as <- _; exists d; split; [exact Hl|reflexivity].
  - cbn [walk] in W.
    destruct (h !! r) as [dr|] eqn:Hr; [|injection W as <- _; exists d; split; [exact Hl|reflexivity]].
    destruct (dr !! p) as [v|] eqn:Dp.
    + destruct v; try (injection W as <- _; exists d; split; [exact Hl|reflexivity]).
      eapply IH; [exact W|exact Hl].
    + set (n := fresh (dom h)) in W.
      assert (Hn : h !! n = None) by apply fresh_not_in.
      assert (Hln : l <> n) by congruence.
      destruct (decide (l = r)) as [->|Hlr].
      * rewrite Hr in Hl; injection Hl as <-.
        destruct (IH _ _ W r (<[p := VDict n]> dr)) as [d' [H1 Hs]].
        { rewrite lookup_insert_ne by congruence; apply lookup_insert_eq. }
        exists d'; split; [exact H1|].
        transitivity (<[p := VDict n]> dr); [apply insert_subseteq; exact Dp|exact Hs].
      * eapply IH; [exact W|].
        rewrite lookup_insert_ne by congruence; rewrite lookup_insert_ne by congruence; exact Hl.
Qed.

Lemma walk_inv (ps : list string) (h h1 : Heap) (r c : loc) (rank : loc -> Z) :
  WF h rank -> is_Some (h !! r) -> walk h r ps = (h1, Some c) ->
  exists rank', WF h1 rank' /\ nav h1 r ps = Some c /\ is_Some (h1 !! c).
Proof.
  revert h r rank; induction ps as [|p rest IH]; intros h r rank Hwf Hr W.
  - cbn in W; injection W as <- <-; exists rank; split; [exact Hwf|split; [reflexivity|exact Hr]].
  - destruct Hr as [d Hd].
    cbn [walk] in W; rewrite Hd in W.
    destruct (d !! p) as [v|] eqn:Dp.
    + destruct v as [| | | | | |l]; try discriminate.
      destruct (Hwf r d p l Hd Dp) as [Hl _].
      destruct (IH h l rank Hwf Hl W) as [rank' [Hwf' [Hnav Hc]]].
      exists rank'; split; [exact Hwf'|split; [|exact Hc]].
      destruct (walk_mono rest h h1 l (Some c) W r d Hd) as [d' [H1 Hs]].
      cbn [nav]; rewrite H1, (lookup_weaken _ _ _ _ Dp Hs); exact Hnav.
    + set (n := fresh (dom h)) in W.
      assert (Hn : h !! n = None) by apply fresh_not_in.
      assert (Hrn : r <> n) by congruence.
      set (h' := <[n := ∅]> (<[r := <[p := VDict n]> d]> h)) in W.
      set (rank2 := fun x => if decide (x = n) then rank r - 1 else rank x).
      assert (Hwf2 : WF h' rank2).
      { assert (Hold : forall l0 d0 k l'', h !! l0 = Some d0 -> d0 !! k = Some (VDict l'') ->
                         is_Some (h' !! l'') /\ rank2 l'' < rank2 l0).
        { intros l0 d0 k l'' Hh0 Hk'; destruct (Hwf l0 d0 k l'' Hh0 Hk') as [[x Hx] Hlt].
          assert (l'' <> n) by congruence. assert (l0 <> n) by congruence.
          unfold h', rank2; rewrite !decide_False by assumption; split; [|exact Hlt].
          rewrite !lookup_insert_ne by congruence.
          destruct (decide (l'' = r)) as [->|];
            [rewrite lookup_insert_eq; eexists; reflexivity|rewrite lookup_insert_ne by congruence; eexists; exact Hx]. }
        intros l0 d0 k l' H0 Hk; unfold h' in H0.
        destruct (decide (l0 = n)) as [->|Hl0n].
        - rewrite lookup_insert_eq in H0; injection H0 as <-; rewrite lookup_empty in Hk; discriminate.
        - rewrite lookup_insert_ne in H0 by congruence.
          destruct (decide (l0 = r)) as [->|Hl0r].
          + rewrite lookup_insert_eq in H0; injection H0 as <-.
            destruct (decide (k = p)) as [->|Hkp].
            * rewrite lookup_insert_eq in Hk; injection Hk as <-.
              unfold h', rank2; rewrite lookup_insert_eq, decide_True, decide_False by congruence.
              split; [eexists; reflexivity|lia].
            * rewrite lookup_insert_ne in Hk by congruence; exact (Hold r d k l' Hd Hk).
          + rewrite lookup_insert_ne in H0 by congruence; exact (Hold l0 d0 k l' H0 Hk). }
      destruct (IH h' n rank2 Hwf2 (ltac:(eexists; apply lookup_insert_eq)) W)
        as [rank' [Hwf' [Hnav Hc]]].
      exists rank'; split; [exact Hwf'|split; [|exact Hc]].
      destruct (walk_mono rest h' h1 n (Some c) W r (<[p := VDict n]> d)) as [d' [H1 Hs]].
      { unfold h'; rewrite lookup_insert_ne by congruence; apply lookup_insert_eq. }
      cbn [nav]; rewrite H1, (lookup_weaken _ _ _ _ (lookup_insert_eq _ _ _) Hs); exact Hnav.
Qed.

Lemma nav_rank_le (ps : list string) (h : Heap) (r c : loc) (rank : loc -> Z) :
  WF h rank -> nav h r ps = Some c -> rank c <= rank r.
Proof.
  revert r; induction ps as [|p rest IH]; intros r Hwf N.
  - cbn in N; injection N as <-; lia.
  - cbn [nav] in N; destruct (h !! r) as [d|] eqn:Hr; [|discriminate].
    destruct (d !! p) as [[| | | | | |l]|] eqn:Dp; try discriminate.
    destruct (Hwf r d p l Hr Dp) as [_ Hlt]; specialize (IH l Hwf N); lia.
Qed.

Lemma nav_insert_low (ps : list string) (h : Heap) (r c x : loc) (dx : Dict) (rank : loc -> Z) :
  WF h rank -> nav h r ps = Some c -> rank x <= rank c ->
  nav (<[x := dx]> h) r ps = Some c.
Proof.
  revert r; induction ps as [|p rest IH]; intros r Hwf N Hx; [exact N|].
  cbn [nav] in N |- *; destruct (h !! r) as [d|] eqn:Hr; [|discriminate].
  destruct (d !! p) as [[| | | | | |l]|] eqn:Dp; try discriminate.
  destruct (Hwf r d p l Hr Dp) as [_ Hlt].
  pose proof (nav_rank_le rest h l c rank Hwf N).
  rewrite lookup_insert_ne by (intros ->; lia); rewrite Hr, Dp.
  apply IH; assumption.
Qed.

Lemma get_path_nav (ps qs : list string) (h : Heap) (r c : loc) :
  nav h r ps = Some c -> get_path h (VDict r) (ps ++ qs) = get_path h (VDict c) qs.
Proof.
  revert r; induction ps as [|p rest IH]; intros r N.
  - cbn in N; injection N as <-; reflexivity.
  - cbn [nav] in N; cbn [app get_path].
    destruct (h !! r) as [d|]; [|discriminate].
    destruct (d !! p) as [[| | | | | |l]|]; try discriminate.
    apply IH; exact N.
Qed.

(** [set] then [get] on the same key: if [set] reports success, [get]
    gives back the value stored, unless that value is [None] (read back as
    the default); if [set] reports failure, no dictionary was changed,
    even when some were already created on the way. This holds for a
    configuration whose dictionaries do not contain themselves. *)
Theorem config_set_get (h : Heap) (r : loc) (key : string) (v d : Val) (rank : loc -> Z)
    (Hwf : well_formed h rank = true) (Hr : is_Some (h !! r)) :
  ((set h r key v).1 = true -> v <> VNone -> get (set h r key v).2 r key d = v) /\
  ((set h r key v).1 = false -> (set h r key v).2 = h).
Proof.
  apply well_formed_WF in Hwf.
  unfold set.
  destruct (walk h r (removelast (split_dot key))) as [h1 [c|]] eqn:W.
  - destruct (walk_inv _ h h1 r c rank Hwf Hr W) as [rank' [Hwf' [Hnav [dc Hc]]]].
    rewrite Hc; cbn [fst snd].
    split; [|discriminate].
    intros _ Hv; unfold get.
    rewrite (List.app_removelast_last "" (split_dot_nonempty key)) at 2.
    rewrite (get_path_nav _ _ _ r c); [|apply (nav_insert_low _ h1 r c c _ rank'); [exact Hwf'|exact Hnav|lia]].
    cbn [get_path]; rewrite lookup_insert_eq, lookup_insert_eq.
    destruct v; [contradiction|reflexivity..].
  - apply walk_fail in W; subst h1; split; [discriminate|reflexivity].
Qed.

Lemma config_set_get_witness :
  let c := new_config default_heap in
  let rank := fun l : loc => if Pos.eqb l 3 then 1 else
                            if Pos.eqb l 1 then 3 else
                            if Pos.leb l 8 then 2 else 3 in
  well_formed c.1 rank = true /\ is_Some (c.1 !! c.2) /\
  (((set c.1 c.2 "camera.fps" (VInt 30)).1 = true -> VInt 30 <> VNone ->
     get (set c.1 c.2 "camera.fps" (VInt 30)).2 c.2 "camera.fps" VNone = VInt 30) /\
   ((set c.1 c.2 "camera.fps" (VInt 30)).1 = false ->
     (set c.1 c.2 "camera.fps" (VInt 30)).2 = c.1)).
Proof.
  cbv zeta.
  assert (Hwf : well_formed (new_config default_heap).1
                  (fun l : loc => if Pos.eqb l 3 then 1 else
                                 if Pos.eqb l 1 then 3 else
                                 if Pos.leb l 8 then 2 else 3) = true)
    by (vm_compute; reflexivity).
  assert (Hr : is_Some ((new_config default_heap).1 !! (new_config default_heap).2))
    by (eexists; vm_compute; reflexivity).
  split; [exact Hwf|split; [exact Hr|]].
  exact (config_set_get _ _ "camera.fps" (VInt 30) VNone _ Hwf Hr).
Defined.

Lemma set_shared_section (h : Heap) (r r' l : loc) (sec k key : string) (v d : Val) :
  split_dot key = [sec; k] -> v <> VNone ->
  (h !! r ≫= lookup sec) = Some (VDict l) -> (h !! r' ≫= lookup sec) = Some (VDict l) ->
  is_Some (h !! l) -> r' <> l ->
  (set h r key v).1 = true /\ get (set h r key v).2 r' key d = v.
Proof.
  intros Hkey Hv H1 H2 [dl Hl] Hne.
  unfold set, get; rewrite Hkey; cbn [removelast List.last walk].
  destruct (h !! r) as [D1|]; [|discriminate]; cbn in H1; rewrite H1.
  cbn [walk]; rewrite Hl; cbn [fst snd]; split; [reflexivity|].
  cbn [get_path]; rewrite lookup_insert_ne by congruence.
  destruct (h !! r') as [D2|]; [|discriminate]; cbn in H2; rewrite H2.
  rewrite lookup_insert_eq, lookup_insert_eq.
  destruct v; [contradiction|reflexivity..].
Qed.

Lemma set_shared_two (h : Heap) (r r1 r2 l : loc) (sec k key : string) (v d : Val) :
  split_dot key = [sec; k] -> v <> VNone ->
  (h !! r ≫= lookup sec) = Some (VDict l) ->
  (h !! r1 ≫= lookup sec) = Some (VDict l) -> (h !! r2 ≫= lookup sec) = Some (VDict l) ->
  is_Some (h !! l) -> r1 <> l -> r2 <> l ->
  (set h r key v).1 = true /\ get (set h r key v).2 r1 key d = v /\
  get (set h r key v).2 r2 key d = v.
Proof.
  intros Hkey Hv H H1 H2 Hl N1 N2.
  destruct (set_shared_section h r r1 l sec k key v d Hkey Hv H H1 Hl N1) as [A B].
  destruct (set_shared_section h r r2 l sec k key v d Hkey Hv H H2 Hl N2) as [_ C].
  exact (conj A (conj B C)).
Qed.

(** [DEFAULT_CONFIG.copy()] is shallow: two configurations created from the
    defaults share each section dictionary with each other and with
    [DEFAULT_CONFIG] itself, so a [set] of ["<section>.<name>"] through one
    configuration is read back by [get] through the other and through the
    module-level defaults. *)
Theorem config_sections_shared (sec k key : string) (v d : Val)
    (Hsec : In sec default_sections) (Hkey : split_dot key = [sec; k]) (Hv : v <> VNone) :
  let c1 := new_config default_heap in
  let c2 := new_config c1.1 in
  (set c2.1 c1.2 key v).1 = true /\
  get (set c2.1 c1.2 key v).2 c2.2 key d = v /\
  get (set c2.1 c1.2 key v).2 default_loc key d = v.
Proof.
  cbv zeta.
  destruct Hsec as [<-|[<-|[<-|[<-|[<-|[<-|[]]]]]]];
  [eapply (set_shared_two _ _ _ _ 2%positive _ k key v d Hkey Hv)
  |eapply (set_shared_two _ _ _ _ 4%positive _ k key v d Hkey Hv)
  |eapply (set_shared_two _ _ _ _ 5%positive _ k key v d Hkey Hv)
  |eapply (set_shared_two _ _ _ _ 6%positive _ k key v d Hkey Hv)
  |eapply (set_shared_two _ _ _ _ 7%positive _ k key v d Hkey Hv)
  |eapply (set_shared_two _ _ _ _ 8%positive _ k key v d Hkey Hv)];
  first [vm_compute; reflexivity|eexists; vm_compute; reflexivity|vm_compute; discriminate].
Qed.

Lemma config_sections_shared_witness :
  In "camera" default_sections /\ split_dot "camera.fps" = ["camera"; "fps"] /\ VInt 30 <> VNone /\
  (let c1 := new_config default_heap in
   let c2 := new_config c1.1 in
   (set c2.1 c1.2 "camera.fps" (VInt 30)).1 = true /\
   get (set c2.1 c1.2 "camera.fps" (VInt 30)).2 c2.2 "camera.fps" VNone = VInt 30 /\
   get (set c2.1 c1.2 "camera.fps" (VInt 30)).2 default_loc "camera.fps" VNone = VInt 30).
Proof.
  assert (H1 : In "camera" default_sections) by (simpl; tauto).
  assert (H2 : split_dot "camera.fps" = ["camera"; "fps"]) by (vm_compute; reflexivity).
  assert (H3 : VInt 30 <> VNone) by discriminate.
  split; [exact H1|split; [exact H2|split; [exact H3|]]].
  exact (config_sections_shared "camera" "fps" "camera.fps" (VInt 30) VNone H1 H2 H3).
Defined.

(** A top-level key, on the other hand, is written into the copy alone:
    neither another configuration nor the defaults see it. *)
Theorem config_top_level_private (k key : string) (v d : Val)
    (Hkey : split_dot key = [k]) :
  let c1 := new_config default_heap in
  let c2 := new_config c1.1 in
  (set c2.1 c1.2 key v).1 = true /\
  get (set c2.1 c1.2 key v).2 c2.2 key d = get c2.1 c2.2 key d /\
  get (set c2.1 c1.2 key v).2 default_loc key d = get c2.1 default_loc key d.
Proof.
  cbv zeta; unfold set, get; rewrite Hkey; cbn [removelast List.last walk].
  assert (E : exists D, (new_config (new_config default_heap).1).1 !! (new_config default_heap).2 = Some D)
    by (eexists; vm_compute; reflexivity).
  destruct E as [D E]; rewrite E; cbn [fst snd].
  split; [reflexivity|].
  cbn [get_path].
  rewrite !lookup_insert_ne by (vm_compute; discriminate).
  split; reflexivity.
Qed.

Lemma config_top_level_private_witness :
  split_dot "site" = ["site"] /\
  (let c1 := new_config default_heap in
   let c2 := new_config c1.1 in
   (set c2.1 c1.2 "site" (VStr "lab")).1 = true /\
   get (set c2.1 c1.2 "site" (VStr "lab")).2 c2.2 "site" VNone = get c2.1 c2.2 "site" VNone /\
   get (set c2.1 c1.2 "site" (VStr "lab")).2 default_loc "site" VNone =
     get c2.1 default_loc "site" VNone).
Proof.
  assert (H : split_dot "site" = ["site"]) by (vm_compute; reflexivity).
  split; [exact H|].
  exact (config_top_level_private "site" "site" (VStr "lab") VNone H).
Defined.

Lemma JSON_ind2 (P : JSON -> Prop)
  (H1 : P JNull) (H2 : forall b, P (JBool b)) (H3 : forall n, P (JInt n))
  (H4 : forall m e, P (JFloat m e)) (H5 : forall s, P (JStr s))
  (H6 : forall js, Forall P js -> P (JArr js))
  (H7 : forall kvs, Forall (fun kv => P kv.2) kvs -> P (JObj kvs)) :
  forall j, P j.
Proof.
  fix IH 1; intros [| | | | |js|kvs].
  1-5: auto.
  - apply H6; revert js; fix IHl 1; intros [|j js]; constructor; [apply IH|apply IHl].
  - apply H7; revert kvs; fix IHl 1; intros [|[k j] kvs]; constructor; [apply IH|apply IHl].
Qed.

Lemma extends_refl (h : Heap) : extends h h.
Proof. split; [auto|]. intros l d k l' Hl Hd; apply not_elem_of_dom in Hl; congruence. Qed.

Lemma extends_dom (h h1 : Heap) : extends h h1 -> forall l, l ∈ dom h -> l ∈ dom h1.
Proof. intros [E _] l Hl; apply elem_of_dom; rewrite (E l Hl); apply elem_of_dom, Hl. Qed.

Lemma extends_trans (h h1 h2 : Heap) : extends h h1 -> extends h1 h2 -> extends h h2.
Proof.
  intros E1 E2; pose proof (extends_dom _ _ E1) as D1; destruct E1 as [A1 B1], E2 as [A2 B2].
  split.
  - intros l Hl; rewrite (A2 l (D1 l Hl)); apply A1, Hl.
  - intros l d k l' Hl Hd Hk.
    destruct (decide (l ∈ dom h1)) as [Hin|Hout].
    + rewrite (A2 l Hin) in Hd; exact (B1 l d k l' Hl Hd Hk).
    + intros Hl'; exact (B2 l d k l' Hout Hd Hk (D1 _ Hl')).
Qed.

Lemma extends_insert_new (h h' : Heap) (n : loc) (d' : Dict) :
  extends h h' -> n ∉ dom h ->
  (forall k l', d' !! k = Some (VDict l') -> l' ∉ dom h) ->
  extends h (<[n := d']> h').
Proof.
  intros [A B] Hn Hd'; split.
  - intros l Hl; rewrite lookup_insert_ne by (intros ->; contradiction); apply A, Hl.
  - intros l d k l' Hl Hd Hk.
    destruct (decide (l = n)) as [->|Hln].
    + rewrite lookup_insert_eq in Hd; injection Hd as <-; exact (Hd' k l' Hk).
    + rewrite lookup_insert_ne in Hd by congruence; exact (B l d k l' Hl Hd Hk).
Qed.

Lemma alloc_spec (j : JSON) : forall (h : Heap),
  extends h (alloc h j).1 /\ (forall l, (alloc h j).2 = VDict l -> l ∉ dom h).
Proof.
  induction j as [| | | | |js IHjs|kvs IHkvs] using JSON_ind2; intros h.
  1-5: split; [apply extends_refl|discriminate].
  - cbn [alloc].
    match goal with |- context [?F h js] => set (go := F) end.
    assert (G : forall h0, extends h0 (go h0 js).1).
    { induction IHjs as [|j js Pj _ IH]; intros h0.
      - apply extends_refl.
      - cbn [go]. fold go. destruct (alloc h0 j) as [ha va] eqn:Ea.
        pose proof (IH ha) as IHa.
        destruct (go ha js) as [hb vb] eqn:Eb; cbn [fst] in IHa |- *.
        apply extends_trans with ha; [|exact IHa].
        destruct (Pj h0) as [Pa _]; rewrite Ea in Pa; exact Pa. }
    destruct (go h js) as [h' vs] eqn:E; split; [|discriminate].
    specialize (G h); rewrite E in G; exact G.
  - cbn [alloc]; set (n := fresh (dom h)).
    assert (Hn : n ∉ dom h) by apply is_fresh.
    match goal with |- context [?F (<[n := ∅]> h) kvs] => set (go := F) end.
    assert (G : forall hc, extends h hc -> n ∈ dom hc -> extends h (go hc kvs)).
    { induction IHkvs as [|[k j] kvs Pj _ IH]; intros hc Ec Hnc; [exact Ec|].
      cbn [go]; fold go.
      destruct (alloc hc j) as [ha va] eqn:Ea.
      destruct (Pj hc) as [Eca Hva]; cbn [snd] in Eca, Hva; rewrite Ea in Eca, Hva; cbn [fst snd] in Eca, Hva.
      pose proof (extends_trans _ _ _ Ec Eca) as Eha.
      apply IH; [|apply elem_of_dom; rewrite lookup_insert_eq; eexists; reflexivity].
      apply extends_insert_new; [exact Eha|exact Hn|].
      intros k' l' Hk'.
      destruct (decide (k' = k)) as [->|Hkk].
      + rewrite lookup_insert_eq in Hk'; injection Hk' as Hv.
        intros Hl'; exact (Hva l' Hv (extends_dom _ _ Ec _ Hl')).
      + rewrite lookup_insert_ne in Hk' by congruence.
        destruct (ha !! n) as [dn|] eqn:Dn; cbn in Hk'; [|rewrite lookup_empty in Hk'; discriminate].
        exact (proj2 Eha n dn k' l' Hn Dn Hk'). }
    split.
    + apply G; [|apply elem_of_dom; rewrite lookup_insert_eq; eexists; reflexivity].
      apply extends_insert_new; [apply extends_refl|exact Hn|].
      intros k l' Hk; rewrite lookup_empty in Hk; discriminate.
    + intros l E; injection E as <-; exact Hn.
Qed.

Lemma no_ref_extends (Q : loc -> Prop) (h h1 : Heap) :
  (forall l, Q l -> l ∈ dom h) -> no_ref h Q -> extends h h1 -> no_ref h1 Q.
Proof.
  intros HQ N [A B] l d k l' Hd Hk HQl'.
  destruct (decide (l ∈ dom h)) as [Hin|Hout].
  - rewrite (A l Hin) in Hd; exact (N l d k l' Hd Hk HQl').
  - exact (B l d k l' Hout Hd Hk (HQ _ HQl')).
Qed.

Lemma store_inv (Q : loc -> Prop) (h : Heap) (tgt : loc) (key : string) (value : JSON) :
  (forall l, Q l -> l ∈ dom h) -> no_ref h Q ->
  let h' := (let '(h1, v) := alloc h value in
             match h1 !! tgt with
             | Some d => <[tgt := <[key := v]> d]> h1
             | None => h1
             end) in
  (forall l, Q l -> l <> tgt -> h' !! l = h !! l) /\ no_ref h' Q /\
  (forall l k, is_Some (h !! l ≫= lookup k) -> is_Some (h' !! l ≫= lookup k)) /\
  (forall l, l ∈ dom h -> l ∈ dom h') /\
  (tgt ∈ dom h -> forall k, k <> key -> (h' !! tgt ≫= lookup k) = (h !! tgt ≫= lookup k)).
Proof.
  intros HQ N h'; subst h'.
  destruct (alloc_spec value h) as [E Hv].
  destruct (alloc h value) as [h1 v]; cbn [fst snd] in E, Hv.
  pose proof (no_ref_extends Q h h1 HQ N E) as N1.
  pose proof (extends_dom _ _ E) as D1.
  destruct E as [A _].
  destruct (h1 !! tgt) as [d|] eqn:Ht.
  - split; [|split; [|split; [|split]]].
    + intros l Ql Hne; rewrite lookup_insert_ne by congruence; apply A, HQ, Ql.
    + intros l d0 k l' Hd Hk.
      destruct (decide (l = tgt)) as [->|Hne].
      * rewrite lookup_insert_eq in Hd; injection Hd as <-.
        destruct (decide (k = key)) as [->|Hkk].
        -- rewrite lookup_insert_eq in Hk; injection Hk as Hk.
           intros Ql'; exact (Hv l' Hk (HQ _ Ql')).
        -- rewrite lookup_insert_ne in Hk by congruence; exact (N1 tgt d k l' Ht Hk).
      * rewrite lookup_insert_ne in Hd by congruence; exact (N1 l d0 k l' Hd Hk).
    + intros l k [x Hx].
      destruct (h !! l) as [dl|] eqn:Hl; [|discriminate].
      assert (Hin : l ∈ dom h) by (apply elem_of_dom; rewrite Hl; eexists; reflexivity).
      destruct (decide (l = tgt)) as [->|Hne].
      * rewrite lookup_insert_eq; cbn.
        rewrite (A tgt Hin), Hl in Ht; injection Ht as ->; cbn in Hx.
        destruct (decide (k = key)) as [->|Hkk];
          [rewrite lookup_insert_eq|rewrite lookup_insert_ne, Hx by congruence]; eexists; reflexivity.
      * rewrite lookup_insert_ne by congruence; rewrite (A l Hin), Hl; eexists; exact Hx.
    + intros l Hl; apply elem_of_dom.
      destruct (decide (l = tgt)) as [->|Hne];
        [rewrite lookup_insert_eq|rewrite lookup_insert_ne by congruence; apply elem_of_dom, D1, Hl];
        eexists; reflexivity.
    + intros Hin k Hkk; rewrite lookup_insert_eq; cbn.
      rewrite <- (A tgt Hin), Ht; cbn; apply lookup_insert_ne; congruence.
  - split; [|split; [exact N1|split; [|split; [exact D1|]]]].
    + intros l Ql _; apply A, HQ, Ql.
    + intros l k [x Hx].
      destruct (h !! l) as [dl|] eqn:Hl; [|discriminate].
      assert (Hin : l ∈ dom h) by (apply elem_of_dom; rewrite Hl; eexists; reflexivity).
      rewrite (A l Hin), Hl; eexists; exact Hx.
    + intros Hin; rewrite (A tgt Hin) in Ht; apply elem_of_dom in Hin; rewrite Ht in Hin; destruct Hin; discriminate.
Qed.

Lemma update_item_inv (Q : loc -> Prop) (value : JSON) : forall (h : Heap) (tgt : loc) (key : string),
  (forall l, Q l -> l ∈ dom h) -> no_ref h Q -> ~ Q tgt ->
  (forall l, Q l -> update_item h tgt key value !! l = h !! l) /\ no_ref (update_item h tgt key value) Q /\
  (forall l k, is_Some (h !! l ≫= lookup k) -> is_Some (update_item h tgt key value !! l ≫= lookup k)) /\
  (forall l, l ∈ dom h -> l ∈ dom (update_item h tgt key value)).
Proof.
  induction value as [| | | | |js _|kvs IHkvs] using JSON_ind2; intros h tgt key HQ N Ht.
  1-6: cbn [update_item];
       match goal with |- context [alloc ?hh ?v] => destruct (store_inv Q hh tgt key v HQ N) as (S1 & S2 & S3 & S4 & _) end;
       split; [intros l Ql; apply S1; [exact Ql|congruence]|tauto].
  destruct (h !! tgt ≫= lookup key) as [[| | | | | |l]|] eqn:L;
    try (destruct (store_inv Q h tgt key (JObj kvs) HQ N) as (S1 & S2 & S3 & S4 & _);
         cbn [update_item]; rewrite L;
         split; [intros l0 Ql; apply S1; [exact Ql|congruence]|tauto]).
  cbn [update_item]; rewrite L.
  assert (Hl : ~ Q l).
  { destruct (h !! tgt) as [dt|] eqn:Dt; [|discriminate]; exact (N tgt dt key l Dt L). }
  match goal with |- context [?F h kvs] => set (go := F) end.
  clear L; revert h HQ N.
  induction IHkvs as [|[k j] kvs Pj _ IH]; intros h HQ N.
  - cbn [go]; split; [auto|split; [exact N|split; auto]].
  - cbn [go]; fold go; cbn [snd] in Pj.
    destruct (Pj h l k HQ N Hl) as (A1 & A2 & A3 & A4).
    assert (HQ' : forall l0, Q l0 -> l0 ∈ dom (update_item h l k j)).
    { intros l0 Ql0; apply elem_of_dom; rewrite A1 by exact Ql0; apply elem_of_dom, HQ, Ql0. }
    destruct (IH _ HQ' A2) as (B1 & B2 & B3 & B4).
    split; [intros l0 Ql0; rewrite B1, A1 by exact Ql0; reflexivity|].
    split; [exact B2|split; [intros l0 k0 S; apply B3, A3, S|intros l0 D; apply B4, A4, D]].
Qed.

Lemma update_dict_inv (Q : loc -> Prop) (source : list (string * JSON)) : forall (h : Heap) (tgt : loc),
  (forall l, Q l -> l ∈ dom h) -> no_ref h Q -> ~ Q tgt ->
  (forall l, Q l -> update_dict h tgt source !! l = h !! l) /\ no_ref (update_dict h tgt source) Q /\
  (forall l k, is_Some (h !! l ≫= lookup k) -> is_Some (update_dict h tgt source !! l ≫= lookup k)) /\
  (forall l, l ∈ dom h -> l ∈ dom (update_dict h tgt source)).
Proof.
  unfold update_dict.
  induction source as [|[k j] rest IH]; intros h tgt HQ N Ht; cbn [fold_left].
  - split; [auto|split; [exact N|split; auto]].
  - destruct (update_item_inv Q j h tgt k HQ N Ht) as (A1 & A2 & A3 & A4).
    assert (HQ' : forall l0, Q l0 -> l0 ∈ dom (update_item h tgt k j)).
    { intros l0 Ql0; apply elem_of_dom; rewrite A1 by exact Ql0; apply elem_of_dom, HQ, Ql0. }
    destruct (IH _ tgt HQ' A2 Ht) as (B1 & B2 & B3 & B4).
    split; [intros l0 Ql0; rewrite B1, A1 by exact Ql0; reflexivity|].
    split; [exact B2|split; [intros l0 k0 S; apply B3, A3, S|intros l0 D; apply B4, A4, D]].
Qed.

Lemma update_item_merge (h : Heap) (tgt l : loc) (key : string) (items : list (string * JSON)) :
  (h !! tgt ≫= lookup key) = Some (VDict l) ->
  update_item h tgt key (JObj items) = update_dict h l items.
Proof.
  intros L; cbn [update_item]; rewrite L; clear L; unfold update_dict; revert h.
  induction items as [|[k v] items IH]; intros h; [reflexivity|cbn [fold_left]; apply IH].
Qed.

Lemma update_item_store (h : Heap) (tgt : loc) (key : string) (value : JSON) :
  (forall its l, value = JObj its -> (h !! tgt ≫= lookup key) <> Some (VDict l)) ->
  update_item h tgt key value =
    (let '(h1, v) := alloc h value in
     match h1 !! tgt with
     | Some d => <[tgt := <[key := v]> d]> h1
     | None => h1
     end).
Proof.
  intros H; destruct value as [| | | | | |its]; try reflexivity.
  cbn [update_item]; destruct (h !! tgt ≫= lookup key) as [[| | | | | |l]|] eqn:L; try reflexivity.
  exfalso; exact (H its l eq_refl eq_refl).
Qed.

Lemma update_dict_root (Q : loc -> Prop) (S : list string) (items : list (string * JSON)) :
  forall (h : Heap) (tgt : loc),
  (forall l, Q l -> l ∈ dom h) -> no_ref h Q -> Q tgt ->
  (forall s, In s S -> exists l, (h !! tgt ≫= lookup s) = Some (VDict l)) ->
  (forall s j, In (s, j) items -> In s S -> exists its, j = JObj its) ->
  (forall l, Q l -> l <> tgt -> update_dict h tgt items !! l = h !! l) /\
  (forall s, In s S -> (update_dict h tgt items !! tgt ≫= lookup s) = (h !! tgt ≫= lookup s)).
Proof.
  unfold update_dict.
  induction items as [|[k j] rest IH]; intros h tgt HQ N Qt HS Hobj; cbn [fold_left]; [split; auto|].
  assert (Hobj' : forall s j', In (s, j') rest -> In s S -> exists its, j' = JObj its)
    by (intros s j' Hin; apply Hobj; right; exact Hin).
  assert (Step : forall h', (forall l, Q l -> l ∈ dom h') -> no_ref h' Q ->
            (forall l, Q l -> h' !! l = h !! l) \/
            ((forall l, Q l -> l <> tgt -> h' !! l = h !! l) /\
             (forall s, In s S -> (h' !! tgt ≫= lookup s) = (h !! tgt ≫= lookup s))) ->
            h' = update_item h tgt k j ->
            (forall l, Q l -> l <> tgt -> fold_left (fun h0 '(key, value) => update_item h0 tgt key value) rest h' !! l = h !! l) /\
            (forall s, In s S -> (fold_left (fun h0 '(key, value) => update_item h0 tgt key value) rest h' !! tgt ≫= lookup s) = (h !! tgt ≫= lookup s))).
  { intros h' HQ' N' Hsame _.
    assert (Hs : forall s, In s S -> (h' !! tgt ≫= lookup s) = (h !! tgt ≫= lookup s))
      by (destruct Hsame as [E|[_ E]]; [intros s _; rewrite (E tgt Qt); reflexivity|exact E]).
    assert (Hl : forall l, Q l -> l <> tgt -> h' !! l = h !! l)
      by (destruct Hsame as [E|[E _]]; [intros l Ql _; apply E, Ql|exact E]).
    destruct (IH h' tgt HQ' N' Qt) as [I1 I2];
      [intros s Hin; rewrite Hs by exact Hin; apply HS, Hin|exact Hobj'|].
    split; [intros l Ql Hne; rewrite I1, Hl by assumption; reflexivity|].
    intros s Hin; rewrite I2, Hs by exact Hin; reflexivity. }
  assert (D : (exists its l, j = JObj its /\ (h !! tgt ≫= lookup k) = Some (VDict l)) \/
              ~ (exists its l, j = JObj its /\ (h !! tgt ≫= lookup k) = Some (VDict l))).
  { destruct j as [| | | | | |its]; try (right; intros (its' & l & E & _); discriminate).
    destruct (h !! tgt ≫= lookup k) as [[| | | | | |l]|];
      try (right; intros (its' & l' & E & L'); congruence).
    left; eauto. }
  destruct D as [[its [l [-> L]]]|Hno].
  - rewrite (update_item_merge h tgt l k its L).
    assert (Hl : ~ Q l).
    { destruct (h !! tgt) as [dt|] eqn:Dt; [|discriminate]; exact (N tgt dt k l Dt L). }
    destruct (update_dict_inv Q its h l HQ N Hl) as (A1 & A2 & _ & A4).
    apply Step; [|exact A2|left; exact A1|].
    + intros l0 Ql0; apply A4, HQ, Ql0.
    + symmetry; apply update_item_merge, L.
  - assert (Hns : ~ In k S).
    { intros Hin; destruct (Hobj k j (or_introl eq_refl) Hin) as [its ->].
      destruct (HS k Hin) as [l L]; apply Hno; eauto. }
    rewrite update_item_store by (intros its l -> L; apply Hno; eauto).
    destruct (store_inv Q h tgt k j HQ N) as (S1 & S2 & _ & S4 & S5).
    apply Step; [intros l0 Ql0; apply S4, HQ, Ql0|exact S2| |].
    + right; split; [exact S1|].
      intros s Hin; apply S5; [apply HQ, Qt|intros ->; contradiction].
    + symmetry; apply update_item_store; intros its l -> L; apply Hno; eauto.
Qed.

Lemma no_ref_by_rank (h : Heap) (rank : loc -> Z) (Q : loc -> Prop) :
  well_formed h rank = true -> (forall q l, Q q -> rank l <= rank q) -> no_ref h Q.
Proof.
  intros Hwf Hmax l d k l' Hd Hk Ql'.
  destruct (well_formed_WF h rank Hwf l d k l' Hd Hk) as [_ Hlt].
  specialize (Hmax l' l Ql'); lia.
Qed.

Lemma get_path_step (h : Heap) (r l : loc) (sec : string) (rest : list string) :
  (h !! r ≫= lookup sec) = Some (VDict l) ->
  get_path h (VDict r) (sec :: rest) = get_path h (VDict l) rest.
Proof.
  intros L; cbn [get_path]; destruct (h !! r) as [d|]; [|discriminate]; cbn in L; rewrite L; reflexivity.
Qed.

(** [update] never deletes: every dictionary and every key of every
    dictionary is still there afterwards. *)
Theorem config_update_never_deletes (h : Heap) (r : loc) (items : list (string * JSON)) :
  (update h r items).1 = true /\
  (forall l, l ∈ dom h -> l ∈ dom (update h r items).2) /\
  (forall l k, is_Some (h !! l ≫= lookup k) -> is_Some ((update h r items).2 !! l ≫= lookup k)).
Proof.
  unfold update; cbn [fst snd].
  destruct (update_dict_inv (fun _ => False) items h r) as (_ & _ & A3 & A4);
    [intros _ []|intros l d k l' _ _ []|intros []|].
  split; [reflexivity|split; [exact A4|exact A3]].
Qed.

(** [update] through one dictionary leaves alone any other dictionary that
    no dictionary refers to, such as the top level of another
    configuration or of [DEFAULT_CONFIG]. *)
Theorem config_update_other_roots (h : Heap) (r q : loc) (items : list (string * JSON))
    (Hq : is_Some (h !! q)) (Hne : q <> r)
    (Hroot : forall l d k, h !! l = Some d -> d !! k <> Some (VDict q)) :
  (update h r items).2 !! q = h !! q.
Proof.
  unfold update; cbn [snd].
  destruct (update_dict_inv (fun l => l = q) items h r) as (A1 & _).
  - intros l ->; apply elem_of_dom, Hq.
  - intros l d k l' Hd Hk ->; exact (Hroot l d k Hd Hk).
  - intros ->; apply Hne; reflexivity.
  - apply A1; reflexivity.
Qed.

Lemma config_update_other_roots_witness :
  let c := new_config default_heap in
  is_Some (c.1 !! default_loc) /\ default_loc <> c.2 /\
  (forall l d k, c.1 !! l = Some d -> d !! k <> Some (VDict default_loc)) /\
  (update c.1 c.2 [("mqtt", JObj [("broker", JStr "10.0.0.2")])]).2 !! default_loc = c.1 !! default_loc.
Proof.
  cbv zeta.
  assert (H1 : is_Some ((new_config default_heap).1 !! default_loc)) by (eexists; vm_compute; reflexivity).
  assert (H2 : default_loc <> (new_config default_heap).2) by (vm_compute; discriminate).
  assert (H3 : forall l d k, (new_config default_heap).1 !! l = Some d -> d !! k <> Some (VDict default_loc)).
  { intros l d k Hd Hk.
    refine (no_ref_by_rank _ (fun l : loc => if Pos.eqb l 3 then 1 else if Pos.eqb l 1 then 3
                                              else if Pos.leb l 8 then 2 else 3)
              (fun x => x = default_loc) _ _ l d k default_loc Hd Hk eq_refl).
    - vm_compute; reflexivity.
    - intros q x ->; cbv beta; change (Pos.eqb default_loc 3) with false; change (Pos.eqb default_loc 1) with true.
      destruct (Pos.eqb x 3); [lia|]; destruct (Pos.eqb x 1); [lia|]; destruct (Pos.leb x 8); lia. }
  split; [exact H1|split; [exact H2|split; [exact H3|]]].
  exact (config_update_other_roots _ _ _ _ H1 H2 H3).
Defined.

(** [update] on one configuration created from the defaults, with an
    object for every section it names, merges into the section
    dictionaries shared with [DEFAULT_CONFIG] and every other such
    configuration: all three agree on every key of a section afterwards,
    and neither the other configuration's top level nor that of the
    defaults changes. *)
Theorem config_update_sections_shared (items : list (string * JSON))
    (Hobj : forall sec j, In (sec, j) items -> In sec default_sections -> exists its, j = JObj its) :
  let c1 := new_config default_heap in
  let c2 := new_config c1.1 in
  let h' := (update c2.1 c1.2 items).2 in
  h' !! default_loc = c2.1 !! default_loc /\ h' !! c2.2 = c2.1 !! c2.2 /\
  (forall (key sec : string) (rest : list string) (d : Val),
     split_dot key = sec :: rest -> In sec default_sections ->
     get h' c1.2 key d = get h' c2.2 key d /\ get h' c2.2 key d = get h' default_loc key d).
Proof.
  cbv zeta; unfold update; cbn [snd].
  set (h0 := (new_config (new_config default_heap).1).1).
  set (r1 := (new_config default_heap).2).
  set (r2 := (new_config (new_config default_heap).1).2).
  set (Q := fun l => l = default_loc \/ l = r1 \/ l = r2).
  assert (HQ : forall l, Q l -> l ∈ dom h0)
    by (intros l [->|[->| ->]]; apply elem_of_dom; eexists; vm_compute; reflexivity).
  assert (N : no_ref h0 Q).
  { apply (no_ref_by_rank h0 (fun l : loc => if Pos.eqb l 3 then 1 else if Pos.eqb l 1 then 3
                                              else if Pos.leb l 8 then 2 else 3));
      [vm_compute; reflexivity|].
    intros q x Hq.
    assert (E : (if Pos.eqb q 3 then 1 else if Pos.eqb q 1 then 3 else if Pos.leb q 8 then 2 else 3) = 3)
      by (destruct Hq as [->|[->| ->]]; vm_compute; reflexivity).
    rewrite E; destruct (Pos.eqb x 3); [lia|]; destruct (Pos.eqb x 1); [lia|]; destruct (Pos.leb x 8); lia. }
  assert (Sec : forall sec, In sec default_sections -> exists ls,
             (h0 !! r1 ≫= lookup sec) = Some (VDict ls) /\ (h0 !! r2 ≫= lookup sec) = Some (VDict ls) /\
             (h0 !! default_loc ≫= lookup sec) = Some (VDict ls)).
  { intros sec Hs; destruct Hs as [<-|[<-|[<-|[<-|[<-|[<-|[]]]]]]];
      (eexists; split; [vm_compute; reflexivity|split; vm_compute; reflexivity]). }
  destruct (update_dict_root Q default_sections items h0 r1 HQ N (or_intror (or_introl eq_refl)))
    as [U1 U2]; [intros s Hs; destruct (Sec s Hs) as [ls [L _]]; eauto|exact Hobj|].
  assert (D1 : default_loc <> r1) by (vm_compute; discriminate).
  assert (D2 : r2 <> r1) by (vm_compute; discriminate).
  split; [apply U1; [left; reflexivity|exact D1]|].
  split; [apply U1; [right; right; reflexivity|exact D2]|].
  intros key sec rest d Hk Hs.
  destruct (Sec sec Hs) as [ls (L1 & L2 & L3)].
  unfold get; rewrite Hk.
  rewrite (get_path_step _ r1 ls) by (rewrite U2 by exact Hs; exact L1).
  rewrite (get_path_step _ r2 ls) by (rewrite U1 by (first [right; right; reflexivity|exact D2]); exact L2).
  rewrite (get_path_step _ default_loc ls) by (rewrite U1 by (first [left; reflexivity|exact D1]); exact L3).
  split; reflexivity.
Qed.

Lemma config_update_sections_shared_witness :
  (forall sec j, In (sec, j) [("mqtt", JObj [("broker", JStr "10.0.0.2")]); ("site", JStr "lab")] ->
     In sec default_sections -> exists its, j = JObj its) /\
  (let c1 := new_config default_heap in
   let c2 := new_config c1.1 in
   let h' := (update c2.1 c1.2 [("mqtt", JObj [("broker", JStr "10.0.0.2")]); ("site", JStr "lab")]).2 in
   h' !! default_loc = c2.1 !! default_loc /\ h' !! c2.2 = c2.1 !! c2.2 /\
   (forall (key sec : string) (rest : list string) (d : Val),
      split_dot key = sec :: rest -> In sec default_sections ->
      get h' c1.2 key d = get h' c2.2 key d /\ get h' c2.2 key d = get h' default_loc key d)).
Proof.
  assert (H : forall sec j, In (sec, j) [("mqtt", JObj [("broker", JStr "10.0.0.2")]); ("site", JStr "lab")] ->
                In sec default_sections -> exists its, j = JObj its).
  { intros sec j [E|[E|[]]] Hs; injection E as <- <-; [eexists; reflexivity|].
    vm_compute in Hs; repeat (destruct Hs as [Hs|Hs]; [discriminate|]); destruct Hs. }
  split; [exact H|].
  exact (config_update_sections_shared _ H).
Defined.

(** On a dictionary, [update] with scalar values under keys without a
    dot does what [set] of each key in turn does. *)
Theorem config_update_flat_is_set (h : Heap) (r : loc) (items : list (string * JSON))
    (Hr : is_Some (h !! r))
    (Hflat : forall k j, In (k, j) items ->
       split_dot k = [k] /\ match j with JArr _ | JObj _ => False | _ => True end) :
  (update h r items).2 = fold_left (fun h '(k, j) => (set h r k (alloc h j).2).2) items h.
Proof.
  unfold update, update_dict; cbn [snd].
  revert h Hr; induction items as [|[k j] rest IH]; intros h Hr; [reflexivity|].
  cbn [fold_left].
  destruct (Hflat k j (or_introl eq_refl)) as [Hk Hj].
  assert (E : update_item h r k j = (set h r k (alloc h j).2).2).
  { destruct Hr as [d Hd].
    unfold set; rewrite Hk; cbn [removelast walk List.last].
    destruct j as [| | | | |js|its]; try contradiction; cbn [update_item alloc fst snd]; rewrite Hd; reflexivity. }
  rewrite <- E; apply IH.
  - intros k' j' Hin; apply Hflat; right; exact Hin.
  - destruct Hr as [d Hd].
    destruct j as [| | | | |js|its]; try contradiction; cbn [update_item alloc];
      rewrite Hd, lookup_insert_eq; eexists; reflexivity.
Qed.

Lemma config_update_flat_is_set_witness :
  let c := new_config default_heap in
  is_Some (c.1 !! c.2) /\
  (forall k j, In (k, j) [("site", JStr "lab"); ("floor", JInt 2)] ->
     split_dot k = [k] /\ match j with JArr _ | JObj _ => False | _ => True end) /\
  (update c.1 c.2 [("site", JStr "lab"); ("floor", JInt 2)]).2 =
    fold_left (fun h '(k, j) => (set h c.2 k (alloc h j).2).2) [("site", JStr "lab"); ("floor", JInt 2)] c.1.
Proof.
  cbv zeta.
  assert (H1 : is_Some ((new_config default_heap).1 !! (new_config default_heap).2))
    by (eexists; vm_compute; reflexivity).
  assert (H2 : forall k j, In (k, j) [("site", JStr "lab"); ("floor", JInt 2)] ->
     split_dot k = [k] /\ match j with JArr _ | JObj _ => False | _ => True end).
  { intros k j [E|[E|[]]]; injection E as <- <-; (split; [vm_compute; reflexivity|exact I]). }
  split; [exact H1|split; [exact H2|]].
  exact (config_update_flat_is_set _ _ _ H1 H2).
Defined.

End ConfigFacts.
